(** * FTCinsight: the read-through data-access layer

    A shallow embedding of the client's data layer: the TTL cache over
    idb-keyval ([setWithExpiry], [getWithExpiry]), the cache-aside resolver
    ([cachedQuery]), the resource query functions that feed it, and the
    Firestore queries of [firebase/queries.ts], among them the composite
    [fetchTeamMatches].

    Modelling choices.
    - JavaScript values are the inductive [jsval]; numbers are integers
      (timestamps in milliseconds, team numbers, years), so [NaN] and
      fractions do not occur as stored values.
    - Asynchronous code is sequential code in a state-and-exception monad
      [M] over a [world]: the idb-keyval store, the wall clock, a schedule
      of store faults, and a ghost trace of the calls made to the two data
      sources.  An exception keeps the effects performed before it.
    - The document store and the HTTP backend are oracles of an
      environment [env].  Of the SDK's constraint builders [limit] alone
      checks its argument when it is called ([sdk_limit]). *)

From Stdlib Require Import ZArith List Sorting.Sorted Sorting.Permutation Lia.
From stdpp Require Import base tactics option list strings gmap pretty.

Local Open Scope Z_scope.

(** ** JavaScript values *)

#[warnings="-register-all"]
Inductive jsval : Type :=
  | JUndefined
  | JNull
  | JBool (b : bool)
  | JNum (z : Z)
  | JStr (s : string)
  | JArr (items : list jsval)
  | JObj (fields : list (string * jsval)).

(** ToBoolean: what [if (x)], [!x] and [x || y] test. *)
Definition truthy (v : jsval) : bool :=
  match v with
  | JUndefined | JNull => false
  | JBool b => b
  | JNum z => negb (z =? 0)
  | JStr s => negb (String.eqb s "")
  | JArr _ | JObj _ => true
  end.

(** [x || y] *)
Definition js_or (x y : jsval) : jsval := if truthy x then x else y.

Definition isArray (v : jsval) : bool :=
  match v with JArr _ => true | _ => false end.

(** [v.length] of an array, as used behind [Array.isArray(v) ? ... : ...]. *)
Definition array_length (v : jsval) : Z :=
  match v with JArr items => Z.of_nat (length items) | _ => 0 end.

(** ToNumber, [None] standing for NaN.  Exact on numbers, booleans, null
    and undefined; strings, arrays and objects would go through a number
    parser that is not modelled, and are read as NaN. *)
Definition to_number (v : jsval) : option Z :=
  match v with
  | JNum z => Some z
  | JNull => Some 0
  | JBool b => Some (if b then 1 else 0)
  | _ => None
  end.

(** [n > v] for a number [n]: false as soon as an operand is NaN. *)
Definition num_gt (n : Z) (v : jsval) : bool :=
  match to_number v with Some e => e <? n | None => false end.

(** [v === n] for a number [n]. *)
Definition strict_eq_num (v : jsval) (n : Z) : bool :=
  match v with JNum z => z =? n | _ => false end.

(** Property access [o.f] on a document: the first binding, else undefined. *)
Fixpoint get_field (f : string) (fields : list (string * jsval)) : jsval :=
  match fields with
  | [] => JUndefined
  | (g, v) :: rest => if String.eqb f g then v else get_field f rest
  end.

(** ** The world, and the monad of effects *)

Inductive call : Type :=
  | CallPrimary
  | CallFetch (url : string).

Record world : Type := World {
  store : gmap string jsval;   (* idb-keyval's default store *)
  clock : Z;                   (* what new Date().getTime() reads *)
  faults : list bool;          (* one entry per store operation: true = it rejects *)
  calls : list call            (* ghost: source invocations, oldest first *)
}.

Definition with_store (f : gmap string jsval → gmap string jsval) (w : world) : world :=
  World (f (store w)) (clock w) (faults w) (calls w).
Definition with_clock (t : Z) (w : world) : world :=
  World (store w) t (faults w) (calls w).
Definition with_faults (fs : list bool) (w : world) : world :=
  World (store w) (clock w) fs (calls w).
Definition with_call (c : call) (w : world) : world :=
  World (store w) (clock w) (faults w) (calls w ++ [c]).

Inductive result (A : Type) : Type :=
  | Ok (a : A)
  | Throw (e : string).
Arguments Ok {A} a.
Arguments Throw {A} e.

Definition M (A : Type) : Type := world → result A * world.

Definition ret {A} (a : A) : M A := λ w, (Ok a, w).
Definition throw {A} (e : string) : M A := λ w, (Throw e, w).
Definition bind {A B} (m : M A) (k : A → M B) : M B :=
  λ w, match m w with
       | (Ok a, w') => k a w'
       | (Throw e, w') => (Throw e, w')
       end.
(** [try { m } catch (e) { h e }] *)
Definition try_catch {A} (m : M A) (h : string → M A) : M A :=
  λ w, match m w with
       | (Ok a, w') => (Ok a, w')
       | (Throw e, w') => h e w'
       end.

Notation "x <- m ;; k" := (bind m (λ x, k))
  (at level 100, m at next level, right associativity).
Notation "m ;;; k" := (bind m (λ _, k))
  (at level 100, right associativity).

(** ** idb-keyval: get, set, del *)

(** Each store operation consumes one entry of the fault schedule; an
    exhausted schedule means the store works. *)
Definition store_op {A} (body : M A) : M A :=
  λ w, match faults w with
       | true :: fs => (Throw "idb-keyval", with_faults fs w)
       | false :: fs => body (with_faults fs w)
       | [] => body w
       end.

Definition idb_get (key : string) : M jsval :=
  store_op (λ w, (Ok (default JUndefined (store w !! key)), w)).
Definition idb_set (key : string) (value : jsval) : M unit :=
  store_op (λ w, (Ok tt, with_store (insert key value) w)).
Definition idb_del (key : string) : M unit :=
  store_op (λ w, (Ok tt, with_store (delete key) w)).

Definition getTime : M Z := λ w, (Ok (clock w), w).

(** ** The TTL cache *)

Definition expiry_key (key : string) : string := key +:+ "_expiry".

Definition setWithExpiry (key : string) (value : jsval) (ttl : Z) : M unit :=
  now <- getTime ;;
  try_catch
    (idb_set (expiry_key key) (JNum (now + 1000 * ttl)) ;;;
     idb_set key value)
    (λ _, ret tt).

Definition getWithExpiry (key : string) : M jsval :=
  expiry <- idb_get (expiry_key key) ;;
  if negb (truthy expiry) then ret JNull else
  now <- getTime ;;
  if num_gt now expiry then
    idb_del (expiry_key key) ;;;
    idb_del key ;;;
    ret JNull
  else idb_get key.

(** ** Environment: configuration and the two remote sources *)

(** Firestore query constraints, as built by [where], [orderBy], [limit]. *)
Inductive direction : Type := asc | desc.
Inductive QueryConstraint : Type :=
  | where_ (field op : string) (value : jsval)
  | orderBy (field : string) (dir : direction)
  | limit (n : Z).

(** The SDK's [limit(n)] checks its argument when it is called and throws
    unless the number is positive; [where] and [orderBy] with the literal
    field names of this module build their constraint without a check. *)
Definition sdk_limit (n : Z) : result QueryConstraint :=
  if n <=? 0 then
    Throw ("Function limit() requires a positive number, but it was: "
           +:+ pretty n +:+ ".")
  else Ok (limit n).

(** A Firestore document's data: a map from field names to values. *)
Definition doc : Type := list (string * jsval).

Record Response : Type := { ok : bool; json : result jsval }.

Inductive fetch_result : Type :=
  | NetworkError
  | Responds (res : Response).

Record env : Type := Env {
  NEXT_PUBLIC_FIREBASE_PROJECT_ID : option string;
  NEXT_PUBLIC_FIREBASE_API_KEY : option string;
  PROD : bool;
  (* getDocs(query(collection(db, name), ...constraints)), including getDb() *)
  firestore_getDocs : string → list QueryConstraint → result (list doc);
  (* getDoc(doc(db, name, id)); None when the snapshot does not exist *)
  firestore_getDoc : string → string → result (option doc);
  (* what an HTTP GET of the URL yields *)
  http_get : string → fetch_result;
  (* Date.prototype.getFullYear of a timestamp, in the local time zone *)
  getFullYear : Z → Z
}.

(** constants.tsx *)
Definition BACKEND_URL (E : env) : string :=
  if PROD E then "https://api.ftcinsight.org/v3/site"
  else "http://127.0.0.1:8000/v3/site".

(** The schema version shipped in the source. *)
Definition version : string := "v3".

(** firebase/config.ts *)
Module COLLECTIONS.
Definition teams := "teams".
Definition team_years := "team_years".
Definition events := "events".
Definition matches := "matches".
Definition team_events := "team_events".
Definition team_matches := "team_matches".
Definition years := "years".
Definition rankings := "rankings".
End COLLECTIONS.

(** A [process.env] entry is truthy when it is set and not empty. *)
Definition env_truthy (x : option string) : bool :=
  match x with Some s => negb (String.eqb s "") | None => false end.

Definition lift {A} (r : result A) : M A := λ w, (r, w).

(** [for (const x of l) { s = body(s, x) }] *)
Fixpoint for_of {A S} (l : list A) (body : S → A → M S) (s : S) : M S :=
  match l with
  | [] => ret s
  | x :: rest => s' <- body s x ;; for_of rest body s'
  end.

(** ** Array.prototype.sort with a comparator *)

(** The sort is stable, and a comparator result of NaN counts as +0.
    [sort_le cmp a b] says that the comparator does not put [a] after [b]. *)
Definition sort_le {A} (cmp : A → A → option Z) (a b : A) : bool :=
  match cmp a b with Some d => d <=? 0 | None => true end.

Fixpoint sort_insert {A} (cmp : A → A → option Z) (x : A) (l : list A) : list A :=
  match l with
  | [] => [x]
  | y :: rest => if sort_le cmp x y then x :: y :: rest
                 else y :: sort_insert cmp x rest
  end.

Fixpoint array_sort {A} (cmp : A → A → option Z) (l : list A) : list A :=
  match l with
  | [] => []
  | x :: rest => sort_insert cmp x (array_sort cmp rest)
  end.

(** [a - b], NaN when an operand is. *)
Definition js_sub (a b : jsval) : option Z :=
  match to_number a, to_number b with
  | Some x, Some y => Some (x - y)
  | _, _ => None
  end.

Section DataLayer.

Variable E : env.
(** The functions are stated for an arbitrary schema version [ver]; the
    shipped code is the instance [ver := version]. *)
Variable ver : string.

(** ** firebase/queries.ts *)

Definition fetchDocument (collectionName docId : string) : M jsval :=
  try_catch
    (docSnap <- lift (firestore_getDoc E collectionName docId) ;;
     ret (match docSnap with Some d => JObj d | None => JNull end))
    (λ _, ret JNull).

Definition fetchCollection (collectionName : string)
    (constraints : list QueryConstraint) : M (list doc) :=
  try_catch
    (lift (firestore_getDocs E collectionName constraints))
    (λ _, ret []).

Definition fetchTeams : M (list doc) :=
  fetchCollection COLLECTIONS.teams [where_ "active" "==" (JBool true)].

Definition fetchTeam (teamNum : Z) : M jsval :=
  fetchDocument COLLECTIONS.teams (pretty teamNum).

(** [limit(limitCount)] is evaluated in the function's own body, before
    [fetchCollection] and outside its [try]: a rejection of the SDK's
    [limit] is a rejection of [fetchTeamYears]. *)
Definition fetchTeamYears (year : Z) (limitCount : option Z) : M (list doc) :=
  let constraints := [where_ "year" "==" (JNum year); orderBy "epa" desc] in
  constraints <-
    match limitCount with
    | Some n =>
        if negb (n =? 0) then
          c <- lift (sdk_limit n) ;; ret (constraints ++ [c])
        else ret constraints
    | None => ret constraints
    end ;;
  fetchCollection COLLECTIONS.team_years constraints.

Definition fetchTeamYear (teamNum year : Z) : M jsval :=
  fetchDocument COLLECTIONS.team_years (pretty teamNum +:+ "_" +:+ pretty year).

Definition fetchTeamAllYears (teamNum : Z) : M (list doc) :=
  fetchCollection COLLECTIONS.team_years
    [where_ "team" "==" (JNum teamNum); orderBy "year" desc].

Definition fetchEvents (year : Z) : M (list doc) :=
  fetchCollection COLLECTIONS.events
    [where_ "year" "==" (JNum year); orderBy "time" asc].

Definition fetchEvent (eventKey : string) : M jsval :=
  fetchDocument COLLECTIONS.events eventKey.

(** [eventKey] is a string at the typed call sites and whatever [te.event]
    holds inside [fetchTeamMatches]. *)
Definition fetchEventMatches (eventKey : jsval) : M (list doc) :=
  fetchCollection COLLECTIONS.matches
    [where_ "event" "==" eventKey; orderBy "time" asc].

(** [m.red_1 === teamNum || m.red_2 === teamNum || ...] *)
Definition plays (teamNum : Z) (m : doc) : bool :=
  strict_eq_num (get_field "red_1" m) teamNum
  || strict_eq_num (get_field "red_2" m) teamNum
  || strict_eq_num (get_field "blue_1" m) teamNum
  || strict_eq_num (get_field "blue_2" m) teamNum.

(** [(a, b) => a.time - b.time] *)
Definition by_time (a b : doc) : option Z :=
  js_sub (get_field "time" a) (get_field "time" b).

Definition fetchTeamMatches (teamNum year : Z) : M (list doc) :=
  teamEvents <- fetchCollection COLLECTIONS.team_events
                  [where_ "team" "==" (JNum teamNum);
                   where_ "year" "==" (JNum year)] ;;
  allMatches <- for_of teamEvents
    (λ allMatches te,
       eventMatches <- fetchEventMatches (get_field "event" te) ;;
       let teamMatches := List.filter (plays teamNum) eventMatches in
       ret (allMatches ++ teamMatches))
    [] ;;
  ret (array_sort by_time allMatches).

Definition fetchYear (year : Z) : M jsval :=
  fetchDocument COLLECTIONS.years (pretty year).

Definition fetchEventRankings (eventKey : string) : M (list doc) :=
  fetchCollection COLLECTIONS.rankings
    [where_ "event" "==" (JStr eventKey); orderBy "rank" asc].

(** A list of documents as the array the caller receives. *)
Definition docs (l : list doc) : jsval := JArr (map JObj l).

(** ** The cache-aside resolver *)

Definition isFirebaseConfigured : bool :=
  env_truthy (NEXT_PUBLIC_FIREBASE_PROJECT_ID E)
  && env_truthy (NEXT_PUBLIC_FIREBASE_API_KEY E).

Definition log_call (c : call) : M unit := λ w, (Ok tt, with_call c w).

(** [fetch(url)]: rejects on a network error, else resolves to a response. *)
Definition fetch (url : string) : M Response :=
  log_call (CallFetch url) ;;;
  match http_get E url with
  | NetworkError => throw "fetch failed"
  | Responds res => ret res
  end.

(** [result && (Array.isArray(result) ? result.length > 0 : true)] *)
Definition nonempty_result (r : jsval) : bool :=
  truthy r && (if isArray r then 0 <? array_length r else true).

(** Lines 105-136 of the resolver: what [cachedQuery] does once the cache
    check has failed.  The two [try] blocks end either in a [return] (Some)
    or by falling through to the next statement (None). *)
Definition cachedQuery_sources (cacheKey : string) (firebaseQuery : M jsval)
    (backendPath : string) (expiry : Z) : M jsval :=
  fromFirestore <-
    (if isFirebaseConfigured then
       try_catch
         (r <- (log_call CallPrimary ;;; firebaseQuery) ;;
          if nonempty_result r then
            setWithExpiry cacheKey r expiry ;;; ret (Some r)
          else ret None)
         (λ _, ret None)
     else ret None) ;;
  match fromFirestore with
  | Some r => ret r
  | None =>
    fromBackend <-
      try_catch
        (res <- fetch (BACKEND_URL E +:+ backendPath) ;;
         if ok res then
           data <- lift (json res) ;;
           setWithExpiry cacheKey data expiry ;;; ret (Some data)
         else ret None)
        (λ _, ret None) ;;
    match fromBackend with
    | Some data => ret data
    | None => ret JNull
    end
  end.

Definition cachedQuery (cacheKey : string) (firebaseQuery : M jsval)
    (backendPath : string) (expiry : Z) : M jsval :=
  cached <- getWithExpiry cacheKey ;;
  if truthy cached then ret cached
  else cachedQuery_sources cacheKey firebaseQuery backendPath expiry.

(** ** The resource query functions *)

(** A primary query that resolves to an array of documents. *)
Definition as_array (m : M (list doc)) : M jsval := l <- m ;; ret (docs l).

Definition getAllTeams : M jsval :=
  result <- cachedQuery ("teams_all_" +:+ ver) (as_array fetchTeams)
              "/v3/site/teams/all" 3600 ;;
  ret (js_or result (JArr [])).

Definition getTeam (teamNum : Z) : M jsval :=
  cachedQuery ("team_" +:+ pretty teamNum +:+ "_" +:+ ver)
    (fetchTeam teamNum)
    ("/v3/site/teams/" +:+ pretty teamNum) 3600.

Definition getYearTeamYears (year : Z) (limitCount : option Z) : M jsval :=
  let cacheKey :=
    match limitCount with
    | Some n => if negb (n =? 0)
                then "team_years_" +:+ pretty year +:+ "_" +:+ pretty n +:+ "_" +:+ ver
                else "team_years_" +:+ pretty year +:+ "_all_" +:+ ver
    | None => "team_years_" +:+ pretty year +:+ "_all_" +:+ ver
    end in
  let backendPath :=
    match limitCount with
    | Some n => if negb (n =? 0)
                then "/v3/site/team_years/" +:+ pretty year
                       +:+ "?limit=" +:+ pretty n +:+ "&metric=epa"
                else "/v3/site/team_years/" +:+ pretty year
    | None => "/v3/site/team_years/" +:+ pretty year
    end in
  now <- getTime ;;
  result <- cachedQuery cacheKey
    (teamYears <- fetchTeamYears year limitCount ;;
     yearData <- fetchYear year ;;
     ret (JObj [("year", yearData); ("team_years", docs teamYears)]))
    backendPath
    (if year =? getFullYear E now then 60 else 3600) ;;
  ret (js_or result (JObj [("year", JNull); ("team_years", JArr [])])).

Definition getTeamYear (teamNum year : Z) : M jsval :=
  cachedQuery
    ("team_year_" +:+ pretty teamNum +:+ "_" +:+ pretty year +:+ "_" +:+ ver)
    (fetchTeamYear teamNum year)
    ("/v3/site/team_year/" +:+ pretty year +:+ "/" +:+ pretty teamNum) 300.

Definition getTeamAllYears (teamNum : Z) : M jsval :=
  result <- cachedQuery ("team_all_years_" +:+ pretty teamNum +:+ "_" +:+ ver)
              (as_array (fetchTeamAllYears teamNum))
              ("/v3/site/teams/" +:+ pretty teamNum +:+ "/years") 3600 ;;
  ret (js_or result (JArr [])).

Definition getYearEvents (year : Z) : M jsval :=
  now <- getTime ;;
  cachedQuery ("events_" +:+ pretty year +:+ "_" +:+ ver)
    (events <- fetchEvents year ;;
     yearData <- fetchYear year ;;
     ret (JObj [("year", yearData); ("events", docs events)]))
    ("/v3/site/events/" +:+ pretty year)
    (if year =? getFullYear E now then 60 else 3600).

Definition getEvent (eventKey : string) : M jsval :=
  cachedQuery ("event_" +:+ eventKey +:+ "_" +:+ ver)
    (fetchEvent eventKey)
    ("/v3/site/events/" +:+ eventKey) 300.

Definition getEventMatches (eventKey : string) : M jsval :=
  result <- cachedQuery ("event_matches_" +:+ eventKey +:+ "_" +:+ ver)
              (as_array (fetchEventMatches (JStr eventKey)))
              ("/v3/site/events/" +:+ eventKey +:+ "/matches") 60 ;;
  ret (js_or result (JArr [])).

Definition getTeamYearMatches (teamNum year : Z) : M jsval :=
  result <- cachedQuery
              ("team_matches_" +:+ pretty teamNum +:+ "_" +:+ pretty year +:+ "_" +:+ ver)
              (as_array (fetchTeamMatches teamNum year))
              ("/v3/site/team_year/" +:+ pretty year +:+ "/" +:+ pretty teamNum
                 +:+ "/matches") 300 ;;
  ret (js_or result (JArr [])).

Definition getEventRankings (eventKey : string) : M jsval :=
  result <- cachedQuery ("event_rankings_" +:+ eventKey +:+ "_" +:+ ver)
              (as_array (fetchEventRankings eventKey))
              ("/v3/site/events/" +:+ eventKey +:+ "/rankings") 60 ;;
  ret (js_or result (JArr [])).

End DataLayer.

(** ** Cache keys per request *)

(** One constructor per exported resource query function, with its
    arguments. *)
Inductive request : Type :=
  | ReqAllTeams
  | ReqTeam (teamNum : Z)
  | ReqYearTeamYears (year : Z) (limitCount : option Z)
  | ReqTeamYear (teamNum year : Z)
  | ReqTeamAllYears (teamNum : Z)
  | ReqYearEvents (year : Z)
  | ReqEvent (eventKey : string)
  | ReqEventMatches (eventKey : string)
  | ReqTeamYearMatches (teamNum year : Z)
  | ReqEventRankings (eventKey : string).

Definition run_request (E : env) (ver : string) (r : request) : M jsval :=
  match r with
  | ReqAllTeams => getAllTeams E ver
  | ReqTeam n => getTeam E ver n
  | ReqYearTeamYears y l => getYearTeamYears E ver y l
  | ReqTeamYear n y => getTeamYear E ver n y
  | ReqTeamAllYears n => getTeamAllYears E ver n
  | ReqYearEvents y => getYearEvents E ver y
  | ReqEvent k => getEvent E ver k
  | ReqEventMatches k => getEventMatches E ver k
  | ReqTeamYearMatches n y => getTeamYearMatches E ver n y
  | ReqEventRankings k => getEventRankings E ver k
  end.

(** The part of each key that precedes ["_<version>"]. *)
Definition key_stem (r : request) : string :=
  match r with
  | ReqAllTeams => "teams_all"
  | ReqTeam n => "team_" +:+ pretty n
  | ReqYearTeamYears y (Some n) =>
      if negb (n =? 0) then "team_years_" +:+ pretty y +:+ "_" +:+ pretty n
      else "team_years_" +:+ pretty y +:+ "_all"
  | ReqYearTeamYears y None => "team_years_" +:+ pretty y +:+ "_all"
  | ReqTeamYear n y => "team_year_" +:+ pretty n +:+ "_" +:+ pretty y
  | ReqTeamAllYears n => "team_all_years_" +:+ pretty n
  | ReqYearEvents y => "events_" +:+ pretty y
  | ReqEvent k => "event_" +:+ k
  | ReqEventMatches k => "event_matches_" +:+ k
  | ReqTeamYearMatches n y => "team_matches_" +:+ pretty n +:+ "_" +:+ pretty y
  | ReqEventRankings k => "event_rankings_" +:+ k
  end.

Definition cacheKey (ver : string) (r : request) : string :=
  key_stem r +:+ "_" +:+ ver.

(** ** Specification vocabulary and example environments *)

(** A world whose store no longer fails. *)
Definition healthy (w : world) : Prop := faults w = [].

(** The world a successful [setWithExpiry] leaves behind. *)
Definition written (k : string) (v : jsval) (ttl : Z) (w : world) : world :=
  with_store (λ s, <[k := v]> (<[expiry_key k := JNum (clock w + 1000 * ttl)]> s)) w.

(** An environment in which both sources are down: Firestore is configured
    but every query throws, and every HTTP request fails. *)
Definition env_down : env :=
  Env (Some "ftc-insight") (Some "api-key") false
      (λ _ _, Throw "unavailable") (λ _ _, Throw "unavailable")
      (λ _, NetworkError) (λ _, 2026).

Definition world0 : world := World ∅ 1700000000000 [] [].

(** The primary source yields nothing usable, in one of the three ways the
    resolver distinguishes.  [w1] is the world after the cache read, [w2]
    the world in which the backend is then contacted. *)
Inductive primary_unavailable (E : env) (q : M jsval) (w1 w2 : world) : Prop :=
  | primary_throws (err : string) :
      isFirebaseConfigured E = true →
      q (with_call CallPrimary w1) = (Throw err, w2) →
      primary_unavailable E q w1 w2
  | primary_empty :
      isFirebaseConfigured E = true →
      q (with_call CallPrimary w1) = (Ok (JArr []), w2) →
      primary_unavailable E q w1 w2
  | primary_unconfigured :
      NEXT_PUBLIC_FIREBASE_PROJECT_ID E = None
      ∨ NEXT_PUBLIC_FIREBASE_API_KEY E = None →
      w2 = w1 →
      primary_unavailable E q w1 w2.


(** What the backend half of the resolver does from world [w]. *)
Definition backend_run (E : env) (k path : string) (e : Z) (w : world)
    : result jsval * world :=
  let url := BACKEND_URL E +:+ path in
  let w' := with_call (CallFetch url) w in
  match http_get E url with
  | NetworkError => (Ok JNull, w')
  | Responds res =>
      if ok res then
        match json res with
        | Ok d => (Ok d, snd (setWithExpiry k d e w'))
        | Throw _ => (Ok JNull, w')
        end
      else (Ok JNull, w')
  end.

(** Firestore holds team 1234; the backend is down. *)
Definition env_primary : env :=
  Env (Some "ftc-insight") (Some "api-key") true
      (λ _ _, Ok [])
      (λ c id, if String.eqb c "teams" && String.eqb id "1234"
               then Ok (Some [("team", JNum 1234)]) else Ok None)
      (λ _, NetworkError) (λ _, 2026).

(** Firestore is not configured (no API key); the backend serves team 1234. *)
Definition env_backend : env :=
  Env (Some "ftc-insight") None false
      (λ _ _, Throw "unavailable") (λ _ _, Throw "unavailable")
      (λ url, if String.eqb url "http://127.0.0.1:8000/v3/site/v3/site/teams/1234"
              then Responds {| ok := true; json := Ok (JObj [("team", JNum 1234)]) |}
              else Responds {| ok := false; json := Throw "not found" |})
      (λ _, 2026).

(** Firestore is configured; the backend answers every request with a
    failure status. *)
Definition env_500 : env :=
  Env (Some "ftc-insight") (Some "api-key") true
      (λ _ _, Throw "unavailable") (λ _ _, Throw "unavailable")
      (λ _, Responds {| ok := false; json := Throw "no body" |})
      (λ _, 2026).

(** Firestore is not configured; the backend answers every request with
    the JSON body [0]. *)
Definition env_zero : env :=
  Env None None false
      (λ _ _, Throw "unavailable") (λ _ _, Throw "unavailable")
      (λ _, Responds {| ok := true; json := Ok (JNum 0) |})
      (λ _, 2026).

(** What a collection fetch yields: the documents, or nothing when the
    query fails. *)
Definition docs_or_empty (r : result (list doc)) : list doc :=
  match r with Ok l => l | Throw _ => [] end.

(** The constraints [fetchTeamYears] hands to Firestore once [limit] has
    accepted its argument: the limit is left out when it is absent or 0. *)
Definition team_years_constraints (year : Z) (limitCount : option Z)
    : list QueryConstraint :=
  [where_ "year" "==" (JNum year); orderBy "epa" desc]
  ++ match limitCount with
     | Some n => if n =? 0 then [] else [limit n]
     | None => []
     end.

(** The team's event participations of the season, as Firestore reports. *)
Definition team_events_of (E : env) (teamNum year : Z) : list doc :=
  docs_or_empty
    (firestore_getDocs E COLLECTIONS.team_events
       [where_ "team" "==" (JNum teamNum); where_ "year" "==" (JNum year)]).

(** The matches of the event a participation refers to. *)
Definition event_matches_of (E : env) (te : doc) : list doc :=
  docs_or_empty
    (firestore_getDocs E COLLECTIONS.matches
       [where_ "event" "==" (get_field "event" te); orderBy "time" asc]).

(** The team occupies one of the four slots of the match. *)
Definition in_a_slot (teamNum : Z) (m : doc) : Prop :=
  get_field "red_1" m = JNum teamNum ∨ get_field "red_2" m = JNum teamNum
  ∨ get_field "blue_1" m = JNum teamNum ∨ get_field "blue_2" m = JNum teamNum.

(** Per-event team matches, concatenated in event order. *)
Definition team_season_matches (E : env) (teamNum year : Z) : list doc :=
  List.flat_map (λ te, List.filter (plays teamNum) (event_matches_of E te))
    (team_events_of E teamNum year).

Definition numeric_time (m : doc) : Prop :=
  is_Some (to_number (get_field "time" m)).

Definition match_time (m : doc) : Z :=
  default 0 (to_number (get_field "time" m)).

(** A match document with its four slots and its start time. *)
Definition match_doc (key : string) (r1 r2 b1 b2 time : Z) : doc :=
  [("key", JStr key); ("red_1", JNum r1); ("red_2", JNum r2);
   ("blue_1", JNum b1); ("blue_2", JNum b2); ("time", JNum time)].

(** A season of team 1234: two events whose matches load and a third whose
    match query fails.  Event E1 has matches at times 10 and 30, the team
    playing the second as red_1; event E2 has one match at time 20, the
    team playing as blue_2. *)
Definition env_season : env :=
  Env (Some "ftc-insight") (Some "api-key") true
      (λ c cs,
         if String.eqb c "team_events" then
           Ok [[("team", JNum 1234); ("event", JStr "E1")];
               [("team", JNum 1234); ("event", JStr "E3")];
               [("team", JNum 1234); ("event", JStr "E2")]]
         else match cs with
              | where_ _ _ (JStr ev) :: _ =>
                  if String.eqb ev "E1" then
                    Ok [match_doc "E1_q1" 1 2 3 4 10;
                        match_doc "E1_q2" 1234 2 3 4 30]
                  else if String.eqb ev "E2" then
                    Ok [match_doc "E2_q1" 5 6 7 1234 20]
                  else Throw "deadline exceeded"
              | _ => Ok []
              end)
      (λ _ _, Ok None) (λ _, NetworkError) (λ _, 2026).

(** [s.endsWith(suf)] *)
Fixpoint ends_with (s suf : string) : bool :=
  if String.eqb s suf then true
  else match s with
       | EmptyString => false
       | String _ s' => ends_with s' suf
       end.

(** Two version tags of which neither, preceded by its underscore, is a
    suffix of the other preceded by its underscore; any two distinct tags
    of the same length are ([compatible_same_length]). *)
Definition compatible (v1 v2 : string) : Prop :=
  ends_with ("_" +:+ v1) ("_" +:+ v2) = false
  ∧ ends_with ("_" +:+ v2) ("_" +:+ v1) = false.

Definition team_years_key (ver : string) (year : Z) (limitCount : option Z) : string :=
  match limitCount with
  | Some n =>
      if n =? 0 then "team_years_" +:+ pretty year +:+ "_all_" +:+ ver
      else "team_years_" +:+ pretty year +:+ "_" +:+ pretty n +:+ "_" +:+ ver
  | None => "team_years_" +:+ pretty year +:+ "_all_" +:+ ver
  end.

Definition team_years_path (year : Z) (limitCount : option Z) : string :=
  match limitCount with
  | Some n =>
      if n =? 0 then "/v3/site/team_years/" +:+ pretty year
      else "/v3/site/team_years/" +:+ pretty year
             +:+ "?limit=" +:+ pretty n +:+ "&metric=epa"
  | None => "/v3/site/team_years/" +:+ pretty year
  end.

Definition team_years_ttl (E : env) (year now : Z) : Z :=
  if year =? getFullYear E now then 60 else 3600.

Definition team_years_default : jsval :=
  JObj [("year", JNull); ("team_years", JArr [])].

(** Firestore is not configured; the backend answers every request with an
    empty season. *)
Definition env_season_body : env :=
  Env None None false
      (λ _ _, Throw "unavailable") (λ _ _, Throw "unavailable")
      (λ _, Responds {| ok := true;
                        json := Ok (JObj [("year", JNum 2024);
                                          ("team_years", JArr [])]) |})
      (λ _, 2026).

(** ** The legacy resolver: the data module's default export *)

(** [v?.length]: the length of an array or of a string (counted in
    characters of the model), the [length] field of a record, undefined on
    anything else. *)
Definition js_length (v : jsval) : jsval :=
  match v with
  | JArr items => JNum (Z.of_nat (length items))
  | JStr s => JNum (Z.of_nat (String.length s))
  | JObj fields => get_field "length" fields
  | _ => JUndefined
  end.

(** [v > n] for a number [n]: false as soon as an operand is NaN. *)
Definition gt_num (v : jsval) (n : Z) : bool :=
  match to_number v with Some z => n <? z | None => false end.

(** [query(storageKey, apiPath, checkBucket, minLength, expiry)]: the cache
    check, then the backend; [checkBucket] is not used by the body. *)
Definition query (E : env) (storageKey apiPath : string) (checkBucket : bool)
    (minLength expiry : Z) : M jsval :=
  cached <- getWithExpiry storageKey ;;
  if truthy cached && ((minLength =? 0) || gt_num (js_length cached) minLength)
  then ret cached
  else
    fromBackend <-
      try_catch
        (res <- fetch E (BACKEND_URL E +:+ apiPath) ;;
         if ok res then
           data <- lift (json res) ;;
           setWithExpiry storageKey data expiry ;;; ret (Some data)
         else ret None)
        (λ _, ret None) ;;
    match fromBackend with
    | Some data => ret data
    | None => ret JNull
    end.

(** ** firebase/queries.ts: the two queries no resource function uses *)



(** ** Per-request parameters of the resolver *)

(** The backend path each resource query function passes. *)
Definition request_path (r : request) : string :=
  match r with
  | ReqAllTeams => "/v3/site/teams/all"
  | ReqTeam n => "/v3/site/teams/" +:+ pretty n
  | ReqYearTeamYears y (Some n) =>
      if negb (n =? 0)
      then "/v3/site/team_years/" +:+ pretty y
             +:+ "?limit=" +:+ pretty n +:+ "&metric=epa"
      else "/v3/site/team_years/" +:+ pretty y
  | ReqYearTeamYears y None => "/v3/site/team_years/" +:+ pretty y
  | ReqTeamYear n y => "/v3/site/team_year/" +:+ pretty y +:+ "/" +:+ pretty n
  | ReqTeamAllYears n => "/v3/site/teams/" +:+ pretty n +:+ "/years"
  | ReqYearEvents y => "/v3/site/events/" +:+ pretty y
  | ReqEvent k => "/v3/site/events/" +:+ k
  | ReqEventMatches k => "/v3/site/events/" +:+ k +:+ "/matches"
  | ReqTeamYearMatches n y =>
      "/v3/site/team_year/" +:+ pretty y +:+ "/" +:+ pretty n +:+ "/matches"
  | ReqEventRankings k => "/v3/site/events/" +:+ k +:+ "/rankings"
  end.

(** The time-to-live, in seconds, each resource query function passes when
    the clock reads [now]. *)
Definition request_ttl (E : env) (r : request) (now : Z) : Z :=
  match r with
  | ReqAllTeams | ReqTeam _ | ReqTeamAllYears _ => 3600
  | ReqYearTeamYears y _ | ReqYearEvents y =>
      if y =? getFullYear E now then 60 else 3600
  | ReqTeamYear _ _ | ReqEvent _ | ReqTeamYearMatches _ _ => 300
  | ReqEventMatches _ | ReqEventRankings _ => 60
  end.

(** What the function substitutes for a falsy resolver result, if
    anything. *)
Definition request_default (r : request) : option jsval :=
  match r with
  | ReqAllTeams | ReqTeamAllYears _ | ReqEventMatches _
  | ReqTeamYearMatches _ _ | ReqEventRankings _ => Some (JArr [])
  | ReqYearTeamYears _ _ =>
      Some (JObj [("year", JNull); ("team_years", JArr [])])
  | ReqTeam _ | ReqTeamYear _ _ | ReqYearEvents _ | ReqEvent _ => None
  end.

(** What a document fetch yields: the data, or null when the document is
    missing or the request fails. *)
Definition doc_or_null (r : result (option doc)) : jsval :=
  match r with Ok (Some d) => JObj d | _ => JNull end.

(** A primary query that only consults Firestore: it leaves the world as
    it found it. *)
Definition pure_query (q : M jsval) : Prop := ∀ w, snd (q w) = w.

(** ** constants.tsx: tiebreaker point names *)

Definition RP_NAMES : list (Z * list string) :=
  [(2026, ["TBP1"; "TBP2"; "TBP3"]);
   (2025, ["TBP1"; "TBP2"; "TBP3"]);
   (2024, ["TBP1"; "TBP2"]);
   (2023, ["TBP1"; "TBP2"]);
   (2022, ["TBP1"; "TBP2"]);
   (2021, ["TBP1"; "TBP2"]);
   (2020, ["TBP1"; "TBP2"]);
   (2019, ["TBP1"; "TBP2"]);
   (2018, ["TBP1"; "TBP2"]);
   (2017, ["TBP1"; "TBP2"]);
   (2016, ["TBP1"; "TBP2"])].

(** [table[key]] on an object literal with numeric keys. *)
Fixpoint table_get {A} (table : list (Z * A)) (key : Z) : option A :=
  match table with
  | [] => None
  | (k, v) :: rest => if k =? key then Some v else table_get rest key
  end.

(** [names[index]] for an integer index: undefined outside the array. *)
Definition array_get {A} (l : list A) (index : Z) : option A :=
  if index <? 0 then None else l !! Z.to_nat index.

(** [getRPName(year, index)].  Arrays are truthy, so the first table hit
    is taken; a missing or empty name falls back to the template. *)
Definition getRPName (year index : Z) : string :=
  let names :=
    match table_get RP_NAMES year with
    | Some names => names
    | None =>
        match table_get RP_NAMES 2025 with
        | Some names => names
        | None => ["TBP1"; "TBP2"; "TBP3"]
        end
    end in
  match array_get names index with
  | Some name => if String.eqb name "" then "TBP" +:+ pretty (index + 1) else name
  | None => "TBP" +:+ pretty (index + 1)
  end.

(** ** The match section of an event page *)

(** [a === b] on decoded data: primitives by value; two arrays or records
    reached through different properties are different objects. *)
Definition strict_eq (a b : jsval) : bool :=
  match a, b with
  | JUndefined, JUndefined => true
  | JNull, JNull => true
  | JBool x, JBool y => Bool.eqb x y
  | JNum x, JNum y => x =? y
  | JStr x, JStr y => String.eqb x y
  | _, _ => false
  end.

(** [v?.f] for a field name other than [length]. *)
Definition opt_field (f : string) (v : jsval) : jsval :=
  match v with JObj fields => get_field f fields | _ => JUndefined end.

(** [data.matches.filter((match) => match.elim === !quals)] *)
Definition section_matches (quals : bool) (matches : list doc) : list doc :=
  List.filter (λ m, strict_eq (get_field "elim" m) (JBool (negb quals))) matches.

Definition is_completed (m : doc) : bool :=
  strict_eq (get_field "status" m) (JStr "Completed").

(** [N] *)
Definition completed_count (quals : bool) (matches : list doc) : Z :=
  Z.of_nat (length (List.filter is_completed (section_matches quals matches))).

(** [match?.pred?.winner === match?.result?.winner] *)
Definition predicted_right (m : doc) : bool :=
  strict_eq (opt_field "winner" (get_field "pred" m))
            (opt_field "winner" (get_field "result" m)).

(** [correctPreds]: the [reduce] over the completed matches. *)
Definition correctPreds (quals : bool) (matches : list doc) : Z :=
  fold_left (λ acc m, if predicted_right m then acc + 1 else acc)
    (List.filter is_completed (section_matches quals matches)) 0.

(** ** firebase/config.ts: the app and database singletons *)

Section FirebaseSingletons.

(** The Firebase SDK is a parameter: its state, its app and Firestore
    handles (objects, hence truthy), and the three calls the module makes. *)
Variables SDK FirebaseApp Firestore : Type.
Variable getApps : SDK → list FirebaseApp.
Variable initializeApp : SDK → result FirebaseApp * SDK.
Variable getFirestore : FirebaseApp → SDK → result Firestore * SDK.

(** The module-level variables [app] and [db], undefined until set. *)
Record module_vars : Type := ModuleVars {
  app_var : option FirebaseApp;
  db_var : option Firestore
}.

Definition getFirebaseApp (m : module_vars) (s : SDK)
    : result FirebaseApp * module_vars * SDK :=
  match app_var m with
  | Some a => (Ok a, m, s)
  | None =>
      match getApps s with
      | a :: _ => (Ok a, ModuleVars (Some a) (db_var m), s)
      | [] =>
          match initializeApp s with
          | (Ok a, s') => (Ok a, ModuleVars (Some a) (db_var m), s')
          | (Throw e, s') => (Throw e, m, s')
          end
      end
  end.

Definition getDb (m : module_vars) (s : SDK)
    : result Firestore * module_vars * SDK :=
  match db_var m with
  | Some d => (Ok d, m, s)
  | None =>
      match getFirebaseApp m s with
      | (Ok a, m', s') =>
          match getFirestore a s' with
          | (Ok d, s'') => (Ok d, ModuleVars (app_var m') (Some d), s'')
          | (Throw e, s'') => (Throw e, m', s'')
          end
      | (Throw e, m', s') => (Throw e, m', s')
      end
  end.

End FirebaseSingletons.

(** ** Requests with numeric arguments *)

Fixpoint char_in (c : Ascii.ascii) (s : string) : bool :=
  match s with
  | EmptyString => false
  | String x s' => Ascii.eqb c x || char_in c s'
  end.

(** The characters of a decimal integer. *)
Definition is_num_char (c : Ascii.ascii) : bool := char_in c "-0123456789".

Fixpoint numeric_string (s : string) : bool :=
  match s with
  | EmptyString => true
  | String c s' => is_num_char c && numeric_string s'
  end.

(** The requests whose arguments are all numbers. *)
Definition numeric_request (r : request) : bool :=
  match r with
  | ReqEvent _ | ReqEventMatches _ | ReqEventRankings _ => false
  | _ => true
  end.

(** A zero limit is no limit: [limitCount ? ... : ...]. *)
Definition normalise_request (r : request) : request :=
  match r with
  | ReqYearTeamYears y (Some n) =>
      if n =? 0 then ReqYearTeamYears y None else r
  | _ => r
  end.

(** A concrete SDK for the examples: the state is the list of registered
    apps, an app is its index, and the Firestore of app [a] is [a + 100]. *)
Definition sdk_initializeApp (s : list nat) : result nat * list nat :=
  (Ok (length s), s ++ [length s]).

Definition sdk_getFirestore (a : nat) (s : list nat) : result nat * list nat :=
  (Ok (a + 100)%nat, s).

(** ** Basic facts: strings, the monad, the store *)

(** Unfold the monad operations down to functions on worlds. *)
Ltac unfold_monad :=
  cbv beta iota delta [bind try_catch ret throw lift log_call fetch getTime].

Lemma append_cons (x : Ascii.ascii) (a b : string) :
  String x a +:+ b = String x (a +:+ b).
Proof. reflexivity. Qed.

Lemma append_nil_l (b : string) : "" +:+ b = b.
Proof. reflexivity. Qed.

Lemma append_assoc (a b c : string) : (a +:+ b) +:+ c = a +:+ (b +:+ c).
Proof.
  induction a as [|x a IH]; [done|].
  rewrite !append_cons. by rewrite IH.
Qed.

Lemma append_length (a b : string) :
  String.length (a +:+ b) = (String.length a + String.length b)%nat.
Proof.
  induction a as [|x a IH]; [done|].
  rewrite append_cons. simpl. by rewrite IH.
Qed.

Lemma expiry_key_ne (k : string) : expiry_key k ≠ k.
Proof.
  unfold expiry_key. intros H.
  apply (f_equal String.length) in H. rewrite append_length in H.
  simpl in H. lia.
Qed.

Lemma idb_get_healthy k w :
  healthy w → idb_get k w = (Ok (default JUndefined (store w !! k)), w).
Proof. unfold healthy, idb_get, store_op. by intros ->. Qed.

Lemma idb_set_healthy k v w :
  healthy w → idb_set k v w = (Ok tt, with_store (insert k v) w).
Proof. unfold healthy, idb_set, store_op. by intros ->. Qed.

Lemma idb_del_healthy k w :
  healthy w → idb_del k w = (Ok tt, with_store (delete k) w).
Proof. unfold healthy, idb_del, store_op. by intros ->. Qed.

Lemma healthy_with_store f w : healthy w → healthy (with_store f w).
Proof. done. Qed.

Lemma healthy_with_clock t w : healthy w → healthy (with_clock t w).
Proof. done. Qed.

Lemma setWithExpiry_healthy k v ttl w :
  healthy w → setWithExpiry k v ttl w = (Ok tt, written k v ttl w).
Proof.
  intros Hw. unfold setWithExpiry, bind, try_catch, getTime.
  rewrite idb_set_healthy by done.
  rewrite idb_set_healthy by done. done.
Qed.

(** A write never throws, whatever the store does; it touches neither the
    clock nor the trace. *)
Lemma setWithExpiry_total k v ttl w :
  ∃ w', setWithExpiry k v ttl w = (Ok tt, w')
        ∧ clock w' = clock w ∧ calls w' = calls w.
Proof.
  unfold setWithExpiry, bind, try_catch, getTime, idb_set, store_op, ret.
  destruct w as [s t fs cs]; simpl.
  destruct fs as [|[] [|[] fs]]; simpl; eauto.
Qed.

Lemma written_lookup_value k v ttl w : store (written k v ttl w) !! k = Some v.
Proof. simpl. by rewrite lookup_insert_eq. Qed.

Lemma written_lookup_expiry k v ttl w :
  store (written k v ttl w) !! expiry_key k = Some (JNum (clock w + 1000 * ttl)).
Proof.
  simpl. rewrite lookup_insert_ne by (symmetry; apply expiry_key_ne).
  by rewrite lookup_insert_eq.
Qed.

(** Reading an entry whose expiry record is a non-zero instant not yet
    passed returns the value record and leaves the world alone. *)
Lemma getWithExpiry_fresh k w e :
  healthy w → store w !! expiry_key k = Some (JNum e) → e ≠ 0 → clock w <= e →
  getWithExpiry k w = (Ok (default JUndefined (store w !! k)), w).
Proof.
  intros Hw He Hz Hle. unfold getWithExpiry, bind.
  rewrite idb_get_healthy by done. rewrite He. simpl.
  destruct (Z.eqb_spec e 0); [done|]. simpl.
  unfold num_gt. simpl.
  destruct (Z.ltb_spec e (clock w)); [lia|].
  by apply idb_get_healthy.
Qed.

(** Reading an entry whose expiry instant has passed evicts both records. *)
Lemma getWithExpiry_stale k w e :
  healthy w → store w !! expiry_key k = Some (JNum e) → e ≠ 0 → e < clock w →
  getWithExpiry k w
  = (Ok JNull, with_store (λ s, delete k (delete (expiry_key k) s)) w).
Proof.
  intros Hw He Hz Hlt. unfold getWithExpiry, bind.
  rewrite idb_get_healthy by done. rewrite He. simpl.
  destruct (Z.eqb_spec e 0); [done|]. simpl.
  unfold num_gt. simpl.
  destruct (Z.ltb_spec e (clock w)); [|lia].
  rewrite idb_del_healthy by done.
  rewrite idb_del_healthy by done. done.
Qed.

(** ** The TTL cache: read after write, expiry, store failures *)

Lemma cachedQuery_hit E k q path e w c w1 :
  getWithExpiry k w = (Ok c, w1) → truthy c = true →
  cachedQuery E k q path e w = (Ok c, w1).
Proof. intros Hr Ht. unfold cachedQuery, bind. by rewrite Hr, Ht. Qed.

Lemma cachedQuery_miss E k q path e w c w1 :
  getWithExpiry k w = (Ok c, w1) → truthy c = false →
  cachedQuery E k q path e w = cachedQuery_sources E k q path e w1.
Proof. intros Hr Ht. unfold cachedQuery, bind. by rewrite Hr, Ht. Qed.

Lemma read_after_write k v ttl w t :
  healthy w → clock w + 1000 * ttl ≠ 0 → t <= clock w + 1000 * ttl →
  getWithExpiry k (with_clock t (written k v ttl w))
  = (Ok v, with_clock t (written k v ttl w)).
Proof.
  intros Hw Hz Ht.
  rewrite (getWithExpiry_fresh k _ (clock w + 1000 * ttl)); try done.
  - simpl. by rewrite lookup_insert_eq.
  - simpl. rewrite lookup_insert_ne by (symmetry; apply expiry_key_ne).
    by rewrite lookup_insert_eq.
Qed.

(** C1, as amended.  After [write(k, v, ttl)] with [ttl > 0] on a working
    store, a read of [k] at any instant up to the expiry instant returns
    [v]; and when [v] is truthy the resolver returns it and leaves the
    world, trace of source calls included, exactly as the read left it:
    neither the primary query nor the backend is invoked. *)
Theorem fresh_entry_read_and_truthy_hit E k v ttl w t :
  healthy w → 0 <= clock w → 0 < ttl →
  clock w <= t <= clock w + 1000 * ttl →
  let w1 := with_clock t (written k v ttl w) in
  setWithExpiry k v ttl w = (Ok tt, written k v ttl w)
  ∧ getWithExpiry k w1 = (Ok v, w1)
  ∧ (truthy v = true →
     ∀ q path e, cachedQuery E k q path e w1 = (Ok v, w1)).
Proof.
  intros Hw Hc Httl Ht w1.
  assert (Hread : getWithExpiry k w1 = (Ok v, w1)).
  { apply read_after_write; [done | lia | lia]. }
  split; [by apply setWithExpiry_healthy|].
  split; [done|].
  intros Hv q path e. by apply cachedQuery_hit.
Qed.

Lemma fresh_entry_read_and_truthy_hit_witness :
  let w1 := with_clock (clock world0) (written "team_1234_v3" (JObj [("team", JNum 1234)]) 3600 world0) in
  setWithExpiry "team_1234_v3" (JObj [("team", JNum 1234)]) 3600 world0
    = (Ok tt, written "team_1234_v3" (JObj [("team", JNum 1234)]) 3600 world0)
  ∧ getWithExpiry "team_1234_v3" w1 = (Ok (JObj [("team", JNum 1234)]), w1)
  ∧ (truthy (JObj [("team", JNum 1234)]) = true →
     ∀ q path e, cachedQuery env_down "team_1234_v3" q path e w1
                 = (Ok (JObj [("team", JNum 1234)]), w1)).
Proof.
  apply (fresh_entry_read_and_truthy_hit env_down "team_1234_v3"
           (JObj [("team", JNum 1234)]) 3600 world0 (clock world0)).
  - reflexivity.
  - simpl; lia.
  - lia.
  - simpl; lia.
Defined.

(** C1 as stated fails for a falsy value: after writing [0] under a key
    with a positive ttl the read returns [0], yet the resolver does not
    return from the cache; it calls the primary query and the backend. *)
Lemma fresh_falsy_entry_is_not_served :
  let w1 := written "k" (JNum 0) 60 world0 in
  setWithExpiry "k" (JNum 0) 60 world0 = (Ok tt, w1)
  ∧ getWithExpiry "k" w1 = (Ok (JNum 0), w1)
  ∧ fst (cachedQuery env_down "k" (ret (JArr [])) "/teams" 60 w1) = Ok JNull
  ∧ calls (snd (cachedQuery env_down "k" (ret (JArr [])) "/teams" 60 w1))
    = [CallPrimary; CallFetch "http://127.0.0.1:8000/v3/site/teams"].
Proof.
  assert (Hr : getWithExpiry "k" (written "k" (JNum 0) 60 world0)
               = (Ok (JNum 0), written "k" (JNum 0) 60 world0)).
  { apply (read_after_write "k" (JNum 0) 60 world0 (clock world0));
      [done | simpl; lia | simpl; lia]. }
  split; [by apply setWithExpiry_healthy|].
  split; [exact Hr|].
  rewrite (cachedQuery_miss _ _ _ _ _ _ _ _ Hr eq_refl).
  split; reflexivity.
Qed.

(** A rejected [del] during the eviction of a stale entry is not caught
    either. *)
Lemma eviction_failure_reaches_caller k s t e fs cs :
  s !! expiry_key k = Some (JNum e) → e ≠ 0 → e < t →
  getWithExpiry k (World s t (false :: true :: fs) cs)
  = (Throw "idb-keyval", World s t fs cs).
Proof.
  intros He Hz Hlt.
  unfold getWithExpiry, bind, idb_get, idb_del, store_op, getTime. simpl.
  rewrite He. simpl.
  destruct (Z.eqb_spec e 0); [done|]. simpl.
  unfold num_gt. simpl. by destruct (Z.ltb_spec e t); [|lia].
Qed.

(** C5.  A store read that rejects is not caught: [getWithExpiry] has no
    handler, and [cachedQuery] awaits it outside its [try] blocks, so the
    rejection reaches the resolver's caller, while a rejected write is
    swallowed by [setWithExpiry]. *)
Theorem store_read_failure_reaches_caller E k q path e s t fs cs :
  getWithExpiry k (World s t (true :: fs) cs)
    = (Throw "idb-keyval", World s t fs cs)
  ∧ cachedQuery E k q path e (World s t (true :: fs) cs)
    = (Throw "idb-keyval", World s t fs cs)
  ∧ fst (setWithExpiry k JNull e (World s t (true :: fs) cs)) = Ok tt.
Proof. repeat split. Qed.

(** C6.  An entry written at [t0 = clock w] with [ttl] seconds to live
    and read at any instant after [t0 + 1000 * ttl] reads as absent, and
    the read removes both the value record and the expiry record. *)
Theorem expired_entry_is_evicted k v ttl w t :
  healthy w → 0 < clock w → 0 <= ttl → clock w + 1000 * ttl < t →
  ∃ w2,
    getWithExpiry k (with_clock t (snd (setWithExpiry k v ttl w))) = (Ok JNull, w2)
    ∧ store w2 !! k = None
    ∧ store w2 !! expiry_key k = None.
Proof.
  intros Hw Hc Httl Ht.
  rewrite setWithExpiry_healthy by done. simpl snd.
  eexists. split.
  - apply (getWithExpiry_stale k _ (clock w + 1000 * ttl)); try done.
    + simpl. rewrite lookup_insert_ne by (symmetry; apply expiry_key_ne).
      by rewrite lookup_insert_eq.
    + lia.
  - simpl. split.
    + by rewrite lookup_delete_eq.
    + rewrite lookup_delete_ne by (symmetry; apply expiry_key_ne).
      by rewrite lookup_delete_eq.
Qed.

Lemma expired_entry_is_evicted_witness :
  ∃ w2,
    getWithExpiry "event_matches_USCAFFFAQ_v3"
      (with_clock (clock world0 + 60001)
         (snd (setWithExpiry "event_matches_USCAFFFAQ_v3" (JArr []) 60 world0)))
    = (Ok JNull, w2)
    ∧ store w2 !! "event_matches_USCAFFFAQ_v3" = None
    ∧ store w2 !! expiry_key "event_matches_USCAFFFAQ_v3" = None.
Proof.
  apply (expired_entry_is_evicted "event_matches_USCAFFFAQ_v3" (JArr []) 60
           world0 (clock world0 + 60001)).
  - reflexivity.
  - simpl; lia.
  - lia.
  - simpl; lia.
Defined.

(** ** The resolver on a cache miss *)

Lemma missing_parameter_unconfigured E :
  NEXT_PUBLIC_FIREBASE_PROJECT_ID E = None
  ∨ NEXT_PUBLIC_FIREBASE_API_KEY E = None →
  isFirebaseConfigured E = false.
Proof.
  unfold isFirebaseConfigured. intros [-> | ->]; simpl; [done|].
  by rewrite andb_false_r.
Qed.

Lemma sources_primary_nothing E k q path e w1 w2 :
  (isFirebaseConfigured E = false ∧ w2 = w1)
  ∨ (isFirebaseConfigured E = true
     ∧ ((∃ err, q (with_call CallPrimary w1) = (Throw err, w2))
        ∨ (∃ r, q (with_call CallPrimary w1) = (Ok r, w2)
                ∧ nonempty_result r = false))) →
  cachedQuery_sources E k q path e w1 = backend_run E k path e w2.
Proof.
  intros H. unfold cachedQuery_sources, backend_run.
  assert (Hfirst :
    (if isFirebaseConfigured E
     then try_catch
            (r <- (log_call CallPrimary;;; q);;
             if nonempty_result r
             then setWithExpiry k r e;;; ret (Some r) else ret None)
            (λ _, ret None)
     else ret None) w1 = (Ok None, w2)).
  { destruct H as [[-> ->] | [-> [[err Hq] | (r & Hq & Hr)]]]; [done| |].
    - unfold try_catch, bind, log_call. by rewrite Hq.
    - unfold try_catch, bind, log_call. by rewrite Hq, Hr. }
  unfold bind at 1. rewrite Hfirst.
  unfold_monad.
  destruct (http_get E (BACKEND_URL E +:+ path)) as [|res]; [done|].
  destruct (ok res); [|done].
  destruct (json res) as [d|err]; [|done].
  destruct (setWithExpiry_total k d e
              (with_call (CallFetch (BACKEND_URL E +:+ path)) w2))
    as (w' & -> & _). done.
Qed.

Lemma primary_unavailable_run E k q path e w1 w2 :
  primary_unavailable E q w1 w2 →
  cachedQuery_sources E k q path e w1 = backend_run E k path e w2.
Proof.
  intros H. apply sources_primary_nothing.
  destruct H as [err Hc Hq | Hc Hq | Hm ->].
  - right. eauto.
  - right. split; [done|]. right. by exists (JArr []).
  - left. split; [|done]. by apply missing_parameter_unconfigured.
Qed.

Lemma backend_run_calls E k path e w :
  calls (snd (backend_run E k path e w))
  = calls w ++ [CallFetch (BACKEND_URL E +:+ path)].
Proof.
  unfold backend_run.
  destruct (http_get E _) as [|res]; [done|].
  destruct (ok res); [|done].
  destruct (json res) as [d|err]; [|done].
  destruct (setWithExpiry_total k d e
              (with_call (CallFetch (BACKEND_URL E +:+ path)) w))
    as (w' & Hs & _ & Hc).
  rewrite Hs. simpl. by rewrite Hc.
Qed.

Lemma backend_run_total E k path e w :
  ∃ r, fst (backend_run E k path e w) = Ok r.
Proof.
  unfold backend_run.
  destruct (http_get E _) as [|res]; [by eexists|].
  destruct (ok res); [|by eexists].
  destruct (json res) as [d|err]; by eexists.
Qed.



Lemma sources_primary_ok E k q path e w1 r w2 :
  isFirebaseConfigured E = true →
  q (with_call CallPrimary w1) = (Ok r, w2) →
  nonempty_result r = true →
  cachedQuery_sources E k q path e w1 = (Ok r, snd (setWithExpiry k r e w2)).
Proof.
  intros Hc Hq Hr. unfold cachedQuery_sources. rewrite Hc.
  unfold_monad.
  rewrite Hq, Hr.
  destruct (setWithExpiry_total k r e w2) as (w' & -> & _). done.
Qed.

Lemma nonempty_array_or_record r :
  (∃ x items, r = JArr (x :: items)) ∨ (∃ fields, r = JObj fields) →
  nonempty_result r = true.
Proof. by intros [(x & items & ->) | (fields & ->)]. Qed.

(** C2.  On a cache miss with the primary source configured, a primary
    query that resolves to a non-empty array or to a record is returned;
    no backend call is appended to the trace; and, the store working, the
    result is written under [k] together with the expiry record
    [now + 1000 * ttl], [now] being the clock at the time of the write. *)
Theorem primary_result_is_cached_and_returned E k q path e w0 c w1 r w2 :
  getWithExpiry k w0 = (Ok c, w1) → truthy c = false →
  isFirebaseConfigured E = true →
  q (with_call CallPrimary w1) = (Ok r, w2) →
  (∃ x items, r = JArr (x :: items)) ∨ (∃ fields, r = JObj fields) →
  ∃ w3,
    cachedQuery E k q path e w0 = (Ok r, w3)
    ∧ calls w3 = calls w2
    ∧ (healthy w2 →
       w3 = written k r e w2
       ∧ store w3 !! k = Some r
       ∧ store w3 !! expiry_key k = Some (JNum (clock w2 + 1000 * e))).
Proof.
  intros Hread Hc Hconf Hq Hr.
  apply nonempty_array_or_record in Hr.
  rewrite (cachedQuery_miss _ _ _ _ _ _ _ _ Hread Hc).
  rewrite (sources_primary_ok _ _ _ _ _ _ _ _ Hconf Hq Hr).
  eexists. split; [done|]. split.
  - destruct (setWithExpiry_total k r e w2) as (w' & Hs & _ & Hcalls).
    by rewrite Hs.
  - intros Hw. rewrite setWithExpiry_healthy by done. simpl snd.
    split; [done|].
    split; [apply written_lookup_value | apply written_lookup_expiry].
Qed.

Lemma primary_result_is_cached_and_returned_witness :
  ∃ w3,
    cachedQuery env_primary "team_1234_v3" (fetchTeam env_primary 1234)
      "/v3/site/teams/1234" 3600 world0
    = (Ok (JObj [("team", JNum 1234)]), w3)
    ∧ calls w3 = calls (with_call CallPrimary world0)
    ∧ (healthy (with_call CallPrimary world0) →
       w3 = written "team_1234_v3" (JObj [("team", JNum 1234)]) 3600
              (with_call CallPrimary world0)
       ∧ store w3 !! "team_1234_v3" = Some (JObj [("team", JNum 1234)])
       ∧ store w3 !! expiry_key "team_1234_v3"
         = Some (JNum (clock (with_call CallPrimary world0) + 1000 * 3600))).
Proof.
  apply (primary_result_is_cached_and_returned env_primary "team_1234_v3"
           (fetchTeam env_primary 1234) "/v3/site/teams/1234" 3600
           world0 JNull world0).
  - reflexivity.
  - reflexivity.
  - reflexivity.
  - reflexivity.
  - right. eexists. reflexivity.
Defined.

(** C3.  On a cache miss, when the primary query throws, or resolves to an
    empty array, or the primary source is unconfigured because one of its
    two connection parameters is missing, the resolver makes exactly one
    backend request, to [BACKEND_URL + path]; in the unconfigured case the
    trace gains no primary call at all.  On a success status with a
    decodable body the body is returned and, the store working, cached. *)
Theorem primary_unavailable_falls_back E k q path e w0 c w1 w2 :
  getWithExpiry k w0 = (Ok c, w1) → truthy c = false →
  primary_unavailable E q w1 w2 →
  ∃ r w3,
    cachedQuery E k q path e w0 = (Ok r, w3)
    ∧ calls w3 = calls w2 ++ [CallFetch (BACKEND_URL E +:+ path)]
    ∧ (NEXT_PUBLIC_FIREBASE_PROJECT_ID E = None
       ∨ NEXT_PUBLIC_FIREBASE_API_KEY E = None →
       calls w3 = calls w1 ++ [CallFetch (BACKEND_URL E +:+ path)])
    ∧ (∀ res d,
         http_get E (BACKEND_URL E +:+ path) = Responds res →
         ok res = true → json res = Ok d →
         r = d
         ∧ (healthy w2 →
            w3 = written k d e (with_call (CallFetch (BACKEND_URL E +:+ path)) w2)
            ∧ store w3 !! k = Some d
            ∧ store w3 !! expiry_key k = Some (JNum (clock w2 + 1000 * e)))).
Proof.
  intros Hread Hc Hp.
  rewrite (cachedQuery_miss _ _ _ _ _ _ _ _ Hread Hc).
  rewrite (primary_unavailable_run _ k _ path e _ _ Hp).
  destruct (backend_run_total E k path e w2) as [r Hr].
  destruct (backend_run E k path e w2) as [r' w3] eqn:Hrun.
  simpl in Hr. subst r'. exists r, w3.
  pose proof (backend_run_calls E k path e w2) as Hcalls.
  rewrite Hrun in Hcalls. simpl in Hcalls.
  split; [done|]. split; [done|]. split.
  - intros Hm. rewrite Hcalls.
    destruct Hp as [err Hconf _ | Hconf _ | _ ->]; [| |done].
    + rewrite (missing_parameter_unconfigured E Hm) in Hconf. done.
    + rewrite (missing_parameter_unconfigured E Hm) in Hconf. done.
  - intros res d Hget Hok Hjson.
    unfold backend_run in Hrun. rewrite Hget, Hok, Hjson in Hrun.
    injection Hrun as -> <-. split; [done|].
    intros Hw. rewrite setWithExpiry_healthy by exact Hw. simpl snd.
    split; [done|].
    split; [apply written_lookup_value|].
    exact (written_lookup_expiry k r e
             (with_call (CallFetch (BACKEND_URL E +:+ path)) w2)).
Qed.

Lemma primary_unavailable_falls_back_witness :
  ∃ r w3,
    cachedQuery env_backend "team_1234_v3" (fetchTeam env_backend 1234)
      "/v3/site/teams/1234" 3600 world0 = (Ok r, w3)
    ∧ calls w3 = calls world0
                 ++ [CallFetch (BACKEND_URL env_backend +:+ "/v3/site/teams/1234")]
    ∧ (NEXT_PUBLIC_FIREBASE_PROJECT_ID env_backend = None
       ∨ NEXT_PUBLIC_FIREBASE_API_KEY env_backend = None →
       calls w3 = calls world0
                  ++ [CallFetch (BACKEND_URL env_backend +:+ "/v3/site/teams/1234")])
    ∧ (∀ res d,
         http_get env_backend (BACKEND_URL env_backend +:+ "/v3/site/teams/1234")
           = Responds res →
         ok res = true → json res = Ok d →
         r = d
         ∧ (healthy world0 →
            w3 = written "team_1234_v3" d 3600
                   (with_call
                      (CallFetch (BACKEND_URL env_backend +:+ "/v3/site/teams/1234"))
                      world0)
            ∧ store w3 !! "team_1234_v3" = Some d
            ∧ store w3 !! expiry_key "team_1234_v3"
              = Some (JNum (clock world0 + 1000 * 3600)))).
Proof.
  apply (primary_unavailable_falls_back env_backend "team_1234_v3"
           (fetchTeam env_backend 1234) "/v3/site/teams/1234" 3600
           world0 JNull world0 world0).
  - reflexivity.
  - reflexivity.
  - apply primary_unconfigured; [right; reflexivity | reflexivity].
Defined.




(** ** Truthiness in the resolver *)

Example falsy_values :
  truthy JNull = false ∧ truthy JUndefined = false ∧ truthy (JNum 0) = false
  ∧ truthy (JStr "") = false ∧ truthy (JBool false) = false.
Proof. repeat split. Qed.

(** C10.  The resolver's two tests are truthiness tests.
    (1) A cache read that returns a falsy value is a miss: the resolver
        goes on to the sources.
    (2) In particular an unexpired entry whose stored value is falsy is
        read back by the TTL cache and still not served.
    (3) A falsy primary result counts as empty: the backend is called.
    (4) A falsy backend body is returned and written to the cache, where
        the TTL cache reads it back, but the resolver never serves it:
        the next resolution of the key goes to the sources again. *)
Theorem falsy_values_are_misses E k q path e :
  (∀ w0 c w1,
     getWithExpiry k w0 = (Ok c, w1) → truthy c = false →
     cachedQuery E k q path e w0 = cachedQuery_sources E k q path e w1)
  ∧ (∀ v ttl w,
       healthy w → 0 < clock w → 0 <= ttl → truthy v = false →
       getWithExpiry k (written k v ttl w) = (Ok v, written k v ttl w)
       ∧ cachedQuery E k q path e (written k v ttl w)
         = cachedQuery_sources E k q path e (written k v ttl w))
  ∧ (∀ w1 r w2,
       isFirebaseConfigured E = true →
       q (with_call CallPrimary w1) = (Ok r, w2) → truthy r = false →
       ∃ r' w3,
         cachedQuery_sources E k q path e w1 = (Ok r', w3)
         ∧ calls w3 = calls w2 ++ [CallFetch (BACKEND_URL E +:+ path)])
  ∧ (∀ w1 w2 res d,
       primary_unavailable E q w1 w2 →
       http_get E (BACKEND_URL E +:+ path) = Responds res →
       ok res = true → json res = Ok d → truthy d = false →
       healthy w2 → 0 < clock w2 → 0 <= e →
       let w3 := written k d e
                   (with_call (CallFetch (BACKEND_URL E +:+ path)) w2) in
       cachedQuery_sources E k q path e w1 = (Ok d, w3)
       ∧ store w3 !! k = Some d
       ∧ getWithExpiry k w3 = (Ok d, w3)
       ∧ ∀ q' path' e',
           cachedQuery E k q' path' e' w3
           = cachedQuery_sources E k q' path' e' w3).
Proof.
  split; [|split; [|split]].
  - intros w0 c w1 Hread Hc.
    exact (cachedQuery_miss E k q path e w0 c w1 Hread Hc).
  - intros v ttl w Hw Hclock Httl Hv.
    assert (Hread : getWithExpiry k (written k v ttl w)
                    = (Ok v, written k v ttl w)).
    { apply (read_after_write k v ttl w (clock w)); [done | lia | lia]. }
    split; [done|]. exact (cachedQuery_miss E k q path e _ v _ Hread Hv).
  - intros w1 r w2 Hconf Hq Hr.
    rewrite (sources_primary_nothing E k q path e w1 w2).
    + destruct (backend_run_total E k path e w2) as [r' Hr'].
      pose proof (backend_run_calls E k path e w2) as Hcalls.
      destruct (backend_run E k path e w2) as [r'' w3].
      simpl in *. subst r''. by exists r', w3.
    + right. split; [done|]. right. exists r. split; [done|].
      unfold nonempty_result. by rewrite Hr.
  - intros w1 w2 res d Hp Hget Hok Hjson Hd Hw Hclock He w3.
    assert (Hread : getWithExpiry k w3 = (Ok d, w3)).
    { apply (read_after_write k d e
               (with_call (CallFetch (BACKEND_URL E +:+ path)) w2)
               (clock w2)); [exact Hw | simpl; lia | simpl; lia]. }
    split; [|split; [apply written_lookup_value | split; [done|]]].
    + rewrite (primary_unavailable_run _ k _ path e _ _ Hp).
      unfold backend_run. rewrite Hget, Hok, Hjson.
      by rewrite setWithExpiry_healthy by exact Hw.
    + intros q' path' e'.
      exact (cachedQuery_miss E k q' path' e' _ d _ Hread Hd).
Qed.

Lemma falsy_values_are_misses_witness :
  let w3 := written "event_X_v3" (JNum 0) 300
              (with_call (CallFetch (BACKEND_URL env_zero +:+ "/v3/site/events/X"))
                 world0) in
  cachedQuery_sources env_zero "event_X_v3" (fetchEvent env_zero "X")
    "/v3/site/events/X" 300 world0 = (Ok (JNum 0), w3)
  ∧ store w3 !! "event_X_v3" = Some (JNum 0)
  ∧ getWithExpiry "event_X_v3" w3 = (Ok (JNum 0), w3)
  ∧ ∀ q' path' e',
      cachedQuery env_zero "event_X_v3" q' path' e' w3
      = cachedQuery_sources env_zero "event_X_v3" q' path' e' w3.
Proof.
  apply (proj2 (proj2 (proj2
           (falsy_values_are_misses env_zero "event_X_v3"
              (fetchEvent env_zero "X") "/v3/site/events/X" 300)))
           world0 world0 {| ok := true; json := Ok (JNum 0) |} (JNum 0)).
  - apply primary_unconfigured; [left; reflexivity | reflexivity].
  - reflexivity.
  - reflexivity.
  - reflexivity.
  - reflexivity.
  - reflexivity.
  - simpl; lia.
  - lia.
Defined.

(** ** Array.prototype.sort: permutation and order *)

Section SortFacts.
Context {A : Type}.
Variable cmp : A → A → option Z.

Lemma sort_insert_perm x l : Permutation (sort_insert cmp x l) (x :: l).
Proof.
  induction l as [|y l IH]; simpl; [done|].
  destruct (sort_le cmp x y); [done|].
  rewrite IH. apply perm_swap.
Qed.

Lemma array_sort_perm l : Permutation (array_sort cmp l) l.
Proof.
  induction l as [|x l IH]; simpl; [done|].
  rewrite sort_insert_perm. by constructor.
Qed.

(** On elements satisfying [P] the comparator is the difference of an
    integer key. *)
Variable key : A → Z.
Variable P : A → Prop.
Hypothesis cmp_key : ∀ a b, P a → P b → cmp a b = Some (key a - key b).

Let key_le (a b : A) : Prop := key a <= key b.

Lemma sort_insert_sorted x l :
  P x → Forall P l → StronglySorted key_le l →
  StronglySorted key_le (sort_insert cmp x l).
Proof.
  intros Hx Hl Hs. induction Hs as [|y l Hs IH Hy]; simpl.
  - repeat constructor.
  - inversion Hl as [|? ? Py Pl]; subst.
    unfold sort_le. rewrite (cmp_key x y Hx Py).
    destruct (Z.leb_spec (key x - key y) 0) as [Hle|Hgt].
    + constructor; [by constructor|].
      constructor; [unfold key_le; lia|].
      eapply Forall_impl; [exact Hy|]. unfold key_le. intros b Hb. lia.
    + constructor; [by apply IH|].
      rewrite sort_insert_perm.
      constructor; [unfold key_le; lia | done].
Qed.

Lemma array_sort_sorted l :
  Forall P l → StronglySorted key_le (array_sort cmp l).
Proof.
  induction 1 as [|x l Hx Hl IH]; simpl; [constructor|].
  apply sort_insert_sorted; [done | | done].
  by rewrite array_sort_perm.
Qed.
End SortFacts.

(** ** The composite team-season query *)

Lemma strict_eq_num_spec v n : strict_eq_num v n = true ↔ v = JNum n.
Proof.
  destruct v; simpl; try (split; [done | by intros [=]]).
  rewrite Z.eqb_eq. split; [by intros -> | by intros [= ->]].
Qed.

Lemma plays_spec teamNum m : plays teamNum m = true ↔ in_a_slot teamNum m.
Proof.
  unfold plays, in_a_slot.
  rewrite !orb_true_iff, !strict_eq_num_spec. tauto.
Qed.

Lemma fetchCollection_run E c cs w :
  fetchCollection E c cs w = (Ok (docs_or_empty (firestore_getDocs E c cs)), w).
Proof.
  unfold fetchCollection, try_catch, lift.
  by destruct (firestore_getDocs E c cs).
Qed.

Lemma team_matches_loop E teamNum tes acc w :
  for_of tes
    (λ allMatches te,
       eventMatches <- fetchEventMatches E (get_field "event" te) ;;
       ret (allMatches ++ List.filter (plays teamNum) eventMatches))
    acc w
  = (Ok (acc ++ List.flat_map
                  (λ te, List.filter (plays teamNum) (event_matches_of E te)) tes),
     w).
Proof.
  revert acc. induction tes as [|te tes IH]; intros acc; simpl.
  - by rewrite app_nil_r.
  - unfold bind at 1. unfold bind at 1.
    unfold fetchEventMatches. rewrite fetchCollection_run.
    unfold ret at 1. rewrite IH. by rewrite <- app_assoc.
Qed.

Lemma fetchTeamMatches_run E teamNum year w :
  fetchTeamMatches E teamNum year w
  = (Ok (array_sort by_time (team_season_matches E teamNum year)), w).
Proof.
  unfold fetchTeamMatches. unfold bind at 1.
  rewrite fetchCollection_run.
  unfold bind at 1. rewrite team_matches_loop. done.
Qed.

Lemma by_time_key a b :
  numeric_time a → numeric_time b →
  by_time a b = Some (match_time a - match_time b).
Proof.
  unfold numeric_time, by_time, js_sub, match_time.
  by intros [x ->] [y ->].
Qed.

(** C7.  [fetchTeamMatches] always resolves, to a rearrangement of the
    per-event match lists filtered to the matches in which the team holds
    one of the slots red_1, red_2, blue_1, blue_2, concatenated over the
    team's events of the season; an event whose match query fails
    contributes the empty list.  When the match times are numbers the
    result is in ascending order of time. *)
Theorem team_matches_filtered_merged_sorted E teamNum year w :
  ∃ res,
    fetchTeamMatches E teamNum year w = (Ok res, w)
    ∧ Permutation res (team_season_matches E teamNum year)
    ∧ (∀ m, In m res ↔
            ∃ te, In te (team_events_of E teamNum year)
                  ∧ In m (event_matches_of E te)
                  ∧ in_a_slot teamNum m)
    ∧ (Forall numeric_time res →
       StronglySorted (λ a b, match_time a <= match_time b) res)
    ∧ (∀ te err,
         firestore_getDocs E COLLECTIONS.matches
           [where_ "event" "==" (get_field "event" te); orderBy "time" asc]
         = Throw err →
         event_matches_of E te = []).
Proof.
  exists (array_sort by_time (team_season_matches E teamNum year)).
  split; [apply fetchTeamMatches_run|].
  split; [apply array_sort_perm|].
  split; [|split].
  - intros m. split.
    + intros Hin.
      apply (Permutation_in _ (array_sort_perm by_time _)) in Hin.
      unfold team_season_matches in Hin.
      apply in_flat_map in Hin as (te & Hte & Hm).
      apply filter_In in Hm as [Hm Hp].
      exists te. by rewrite <- plays_spec.
    + intros (te & Hte & Hm & Hslot).
      apply (Permutation_in _ (Permutation_sym (array_sort_perm by_time _))).
      unfold team_season_matches. apply in_flat_map. exists te.
      split; [done|]. apply filter_In. by rewrite plays_spec.
  - intros Hnum.
    apply (array_sort_sorted by_time match_time numeric_time by_time_key).
    by rewrite <- (array_sort_perm by_time).
  - intros te err Hq. unfold event_matches_of. by rewrite Hq.
Qed.

Example team_matches_scenario :
  fetchTeamMatches env_season 1234 2026 world0
  = (Ok [match_doc "E2_q1" 5 6 7 1234 20; match_doc "E1_q2" 1234 2 3 4 30],
     world0).
Proof. reflexivity. Qed.

Lemma team_matches_filtered_merged_sorted_witness :
  ∃ res,
    fetchTeamMatches env_season 1234 2026 world0 = (Ok res, world0)
    ∧ StronglySorted (λ a b, match_time a <= match_time b) res.
Proof.
  destruct (team_matches_filtered_merged_sorted env_season 1234 2026 world0)
    as (res & Hrun & _ & _ & Hsorted & _).
  exists res. split; [exact Hrun|].
  apply Hsorted.
  assert (Hres : res = [match_doc "E2_q1" 5 6 7 1234 20;
                        match_doc "E1_q2" 1234 2 3 4 30]).
  { pose proof team_matches_scenario as Hs.
    rewrite Hs in Hrun. by injection Hrun as <-. }
  rewrite Hres. repeat constructor; by eexists.
Defined.

(** ** Cache keys and the schema version *)

Lemma ends_with_nil suf : ends_with "" suf = String.eqb "" suf.
Proof. by destruct suf. Qed.

Lemma ends_with_cons a s suf :
  ends_with (String a s) suf
  = if String.eqb (String a s) suf then true else ends_with s suf.
Proof. reflexivity. Qed.

Lemma ends_with_spec s suf : ends_with s suf = true ↔ ∃ p, s = p +:+ suf.
Proof.
  induction s as [|a s IH].
  - rewrite ends_with_nil.
    destruct (String.eqb_spec "" suf) as [<-|Hne].
    + split; [by exists "" | done].
    + split; [done|]. intros [[|b p] Hp]; [by rewrite append_nil_l in Hp|].
      by rewrite append_cons in Hp.
  - rewrite ends_with_cons.
    destruct (String.eqb_spec (String a s) suf) as [<-|Hne].
    + split; [by exists "" | done].
    + rewrite IH. split.
      * intros [p ->]. by exists (String a p).
      * intros [[|b p] Hp].
        -- by rewrite append_nil_l in Hp.
        -- rewrite append_cons in Hp. injection Hp as _ ->. by exists p.
Qed.

Lemma common_suffix p1 p2 a b :
  p1 +:+ a = p2 +:+ b → ends_with a b = true ∨ ends_with b a = true.
Proof.
  revert p2. induction p1 as [|x p1 IH]; intros p2 H.
  - left. apply ends_with_spec. exists p2. by rewrite append_nil_l in H.
  - destruct p2 as [|y p2].
    + right. apply ends_with_spec. exists (String x p1).
      by rewrite append_nil_l in H.
    + rewrite !append_cons in H. injection H as _ H. by apply IH with p2.
Qed.

Lemma compatible_same_length v1 v2 :
  v1 ≠ v2 → String.length v1 = String.length v2 → compatible v1 v2.
Proof.
  intros Hne Hlen.
  assert (Hno : ∀ a b, a ≠ b → String.length a = String.length b →
                       ends_with ("_" +:+ a) ("_" +:+ b) = false).
  { intros a b Hab Hl.
    destruct (ends_with ("_" +:+ a) ("_" +:+ b)) eqn:He; [|done].
    apply ends_with_spec in He as [p Hp].
    assert (Hp0 : String.length p = 0%nat).
    { apply (f_equal String.length) in Hp. rewrite !append_length in Hp.
      simpl in Hp. lia. }
    destruct p; [|done]. rewrite append_nil_l in Hp.
    apply (inj (String.append "_")) in Hp. done. }
  split; [by apply Hno | apply Hno; [done | lia]].
Qed.

Lemma cacheKey_ends_with ver r : ends_with (cacheKey ver r) ("_" +:+ ver) = true.
Proof. apply ends_with_spec. by exists (key_stem r). Qed.

Lemma compatible_keys_disjoint v1 v2 r1 r2 :
  compatible v1 v2 → cacheKey v1 r1 ≠ cacheKey v2 r2.
Proof.
  intros [H12 H21] Heq. unfold cacheKey in Heq.
  apply common_suffix in Heq as [H|H]; congruence.
Qed.

Lemma bind_ret_r {A} (m : M A) w : (x <- m ;; ret x) w = m w.
Proof. unfold bind, ret. by destruct (m w) as [[a|err] w']. Qed.

(** Each resource query function resolves through [cachedQuery] under the
    key [cacheKey ver r], then substitutes a default for a falsy result
    where the source does so. *)
Lemma run_request_uses_cacheKey E ver r :
  ∃ q path (ttl_of : Z → Z) (dflt : option jsval),
    ∀ w, run_request E ver r w
         = (result <- cachedQuery E (cacheKey ver r) q path (ttl_of (clock w)) ;;
            ret (match dflt with Some d => js_or result d | None => result end)) w.
Proof.
  destruct r as [|n|y [l|]|n y|n|y|k|k|n y|k]; simpl;
    unfold cacheKey; simpl key_stem; rewrite ?append_assoc.
  - by eexists _, _, (λ _, 3600), (Some _).
  - eexists _, _, (λ _, 3600), None. intros w. by rewrite bind_ret_r.
  - unfold getYearTeamYears. destruct (l =? 0); simpl negb; cbv iota;
      eexists _, _, (λ t, if y =? getFullYear E t then 60 else 3600), (Some _);
      intros w; rewrite ?append_assoc; reflexivity.
  - eexists _, _, (λ t, if y =? getFullYear E t then 60 else 3600), (Some _).
    intros w; rewrite ?append_assoc; reflexivity.
  - eexists _, _, (λ _, 300), None. intros w. by rewrite bind_ret_r.
  - by eexists _, _, (λ _, 3600), (Some _).
  - eexists _, _, (λ t, if y =? getFullYear E t then 60 else 3600), None.
    intros w. by rewrite bind_ret_r.
  - eexists _, _, (λ _, 300), None. intros w. by rewrite bind_ret_r.
  - by eexists _, _, (λ _, 60), (Some _).
  - by eexists _, _, (λ _, 300), (Some _).
  - by eexists _, _, (λ _, 60), (Some _).
Qed.

(** A read that returns a truthy value found both records of the entry. *)
Lemma getWithExpiry_hit_records k w c w1 :
  getWithExpiry k w = (Ok c, w1) → truthy c = true →
  store w !! k = Some c ∧ is_Some (store w !! expiry_key k).
Proof.
  unfold getWithExpiry, bind, idb_get, idb_del, store_op, getTime, ret.
  destruct w as [s t fs cs]; simpl.
  assert (Hval : ∀ c, truthy (default JUndefined (s !! expiry_key k)) = true →
            default JUndefined (s !! k) = c → truthy c = true →
            s !! k = Some c ∧ is_Some (s !! expiry_key k)).
  { intros c' He <- Hc. split.
    - by destruct (s !! k).
    - by destruct (s !! expiry_key k). }
  destruct fs as [|[] fs]; simpl; [| done |].
  - destruct (truthy _) eqn:Ht; simpl; [|by intros [= <- _]].
    destruct (num_gt _ _); simpl; [by intros [= <- _]|].
    intros [= Hc _] Hc'. by apply Hval.
  - destruct (truthy _) eqn:Ht; simpl; [|by intros [= <- _]].
    destruct (num_gt _ _); simpl.
    + destruct fs as [|[] fs]; simpl; [by intros [= <- _] | done |].
      destruct fs as [|[] fs]; simpl; [| done |]; by intros [= <- _].
    + destruct fs as [|[] fs]; simpl; [| done |];
        intros [= Hc _] Hc'; by apply Hval.
Qed.

(** A write touches only the two records of its key. *)
Lemma setWithExpiry_frame k v ttl w key :
  key ≠ k → key ≠ expiry_key k →
  store (snd (setWithExpiry k v ttl w)) !! key = store w !! key.
Proof.
  intros Hk He.
  unfold setWithExpiry, bind, try_catch, getTime, idb_set, store_op, ret.
  destruct w as [s t fs cs]; simpl.
  destruct fs as [|[] [|[] fs]]; simpl;
    rewrite ?lookup_insert_ne by done; done.
Qed.

Lemma expiry_key_inj k k' : expiry_key k = expiry_key k' → k = k'.
Proof.
  unfold expiry_key. revert k'.
  induction k as [|x k IH]; intros [|y k'] H; [done | | |].
  - apply (f_equal String.length) in H. rewrite !append_length in H.
    simpl in H. lia.
  - apply (f_equal String.length) in H. rewrite !append_length in H.
    simpl in H. lia.
  - rewrite !append_cons in H. injection H as -> H. f_equal. by apply IH.
Qed.

Lemma expiry_key_twice_ne k : expiry_key (expiry_key k) ≠ k.
Proof.
  unfold expiry_key. intros H.
  apply (f_equal String.length) in H. rewrite !append_length in H.
  simpl in H. lia.
Qed.

(** After a write under [k1], a read of a different key [k2] whose two
    records were absent before never returns a truthy value. *)
Lemma foreign_write_is_a_miss k1 k2 x ttl w c w' :
  k1 ≠ k2 →
  store w !! k2 = None → store w !! expiry_key k2 = None →
  getWithExpiry k2 (snd (setWithExpiry k1 x ttl w)) = (Ok c, w') →
  truthy c = false.
Proof.
  intros Hne Hv He Hread.
  destruct (truthy c) eqn:Hc; [|done]. exfalso.
  destruct (getWithExpiry_hit_records _ _ _ _ Hread Hc) as [Hk2 [ts Hk2e]].
  destruct (decide (k2 = expiry_key k1)) as [Heq|Hne'].
  - rewrite setWithExpiry_frame in Hk2e; [congruence | |].
    + rewrite Heq. apply expiry_key_twice_ne.
    + intros H. apply expiry_key_inj in H. congruence.
  - rewrite setWithExpiry_frame in Hk2; [congruence | congruence | done].
Qed.

(** C8, as amended.  Every resource query function resolves under the key
    [cacheKey ver r], which ends with ["_" + ver].  For two version tags
    neither of which, with its underscore, is a suffix of the other, the
    keys of one version are disjoint from the keys of the other; and once
    a value has been written under a key of the old version, a resolution
    under the new version of a key it has no records for reads nothing
    truthy from the cache and goes to the sources. *)
Theorem compatible_version_change_invalidates E v1 v2 r1 r2 :
  compatible v1 v2 →
  (∃ q path (ttl_of : Z → Z) (dflt : option jsval),
     ∀ w, run_request E v2 r2 w
          = (result <- cachedQuery E (cacheKey v2 r2) q path (ttl_of (clock w)) ;;
             ret (match dflt with Some d => js_or result d | None => result end)) w)
  ∧ ends_with (cacheKey v1 r1) ("_" +:+ v1) = true
  ∧ ends_with (cacheKey v2 r2) ("_" +:+ v2) = true
  ∧ cacheKey v1 r1 ≠ cacheKey v2 r2
  ∧ (∀ w x ttl c w' q path e,
       store w !! cacheKey v2 r2 = None →
       store w !! expiry_key (cacheKey v2 r2) = None →
       getWithExpiry (cacheKey v2 r2)
         (snd (setWithExpiry (cacheKey v1 r1) x ttl w)) = (Ok c, w') →
       truthy c = false
       ∧ cachedQuery E (cacheKey v2 r2) q path e
           (snd (setWithExpiry (cacheKey v1 r1) x ttl w))
         = cachedQuery_sources E (cacheKey v2 r2) q path e w').
Proof.
  intros Hcompat.
  pose proof (compatible_keys_disjoint v1 v2 r1 r2 Hcompat) as Hne.
  split; [apply run_request_uses_cacheKey|].
  split; [apply cacheKey_ends_with|].
  split; [apply cacheKey_ends_with|].
  split; [done|].
  intros w x ttl c w' q path e Hv He Hread.
  assert (Hc : truthy c = false)
    by exact (foreign_write_is_a_miss _ _ _ _ _ _ _ Hne Hv He Hread).
  split; [done|]. exact (cachedQuery_miss E _ q path e _ c w' Hread Hc).
Qed.

Lemma compatible_version_change_invalidates_witness :
  (∃ q path (ttl_of : Z → Z) (dflt : option jsval),
     ∀ w, run_request env_down "v4" (ReqTeam 1234) w
          = (result <- cachedQuery env_down (cacheKey "v4" (ReqTeam 1234)) q path
                         (ttl_of (clock w)) ;;
             ret (match dflt with Some d => js_or result d | None => result end)) w)
  ∧ ends_with (cacheKey "v3" (ReqTeam 1234)) ("_" +:+ "v3") = true
  ∧ ends_with (cacheKey "v4" (ReqTeam 1234)) ("_" +:+ "v4") = true
  ∧ cacheKey "v3" (ReqTeam 1234) ≠ cacheKey "v4" (ReqTeam 1234)
  ∧ (∀ w x ttl c w' q path e,
       store w !! cacheKey "v4" (ReqTeam 1234) = None →
       store w !! expiry_key (cacheKey "v4" (ReqTeam 1234)) = None →
       getWithExpiry (cacheKey "v4" (ReqTeam 1234))
         (snd (setWithExpiry (cacheKey "v3" (ReqTeam 1234)) x ttl w)) = (Ok c, w') →
       truthy c = false
       ∧ cachedQuery env_down (cacheKey "v4" (ReqTeam 1234)) q path e
           (snd (setWithExpiry (cacheKey "v3" (ReqTeam 1234)) x ttl w))
         = cachedQuery_sources env_down (cacheKey "v4" (ReqTeam 1234)) q path e w').
Proof.
  apply (compatible_version_change_invalidates env_down "v3" "v4"
           (ReqTeam 1234) (ReqTeam 1234)).
  split; reflexivity.
Defined.

(** C8 as stated fails when the new tag ends with an underscore followed
    by the old one: the key of event "a_x" under version "v3" is the key
    of event "a" under version "x_v3", and the resolver under "x_v3",
    both sources being down, returns the value written under "v3". *)
Lemma version_suffix_collision :
  "v3" ≠ "x_v3"
  ∧ cacheKey "v3" (ReqEvent "a_x") = cacheKey "x_v3" (ReqEvent "a")
  ∧ run_request env_down "x_v3" (ReqEvent "a")
      (written (cacheKey "v3" (ReqEvent "a_x")) (JObj [("key", JStr "a_x")])
         300 world0)
    = (Ok (JObj [("key", JStr "a_x")]),
       written (cacheKey "v3" (ReqEvent "a_x")) (JObj [("key", JStr "a_x")])
         300 world0).
Proof.
  split; [done|]. split; [reflexivity|].
  apply cachedQuery_hit; [|reflexivity].
  apply (read_after_write "event_a_x_v3" (JObj [("key", JStr "a_x")]) 300
           world0 (clock world0)); [done | simpl; lia | simpl; lia].
Qed.

(** ** The team-years resource: key shape and TTL *)

Lemma getYearTeamYears_unfold E ver year limitCount :
  ∃ q, ∀ w,
    getYearTeamYears E ver year limitCount w
    = (result <- cachedQuery E (team_years_key ver year limitCount) q
                   (team_years_path year limitCount)
                   (team_years_ttl E year (clock w)) ;;
       ret (js_or result team_years_default)) w.
Proof.
  unfold getYearTeamYears, team_years_key, team_years_path.
  destruct limitCount as [n|]; [destruct (n =? 0)|]; by eexists.
Qed.

Lemma getWithExpiry_absent k w :
  healthy w → store w !! expiry_key k = None →
  getWithExpiry k w = (Ok JNull, w).
Proof.
  intros Hw He. unfold getWithExpiry, bind.
  rewrite idb_get_healthy by done. by rewrite He.
Qed.

(** C9, as amended.  [getYearTeamYears] resolves through the key
    [team_years_<year>_all_<version>] when no limit, or a zero limit, is
    given and through [team_years_<year>_<N>_<version>] for a non-zero
    limit [N], with a ttl of 60 seconds when [year] is the calendar year
    of the clock and 3600 seconds otherwise.  Observed on the store: a
    cold resolution served by the backend leaves the body under that key
    and the instant [now + 1000 * ttl] under its expiry key. *)
Theorem team_years_key_and_ttl E ver year limitCount :
  (∃ q, ∀ w,
     getYearTeamYears E ver year limitCount w
     = (result <- cachedQuery E (team_years_key ver year limitCount) q
                    (team_years_path year limitCount)
                    (if year =? getFullYear E (clock w) then 60 else 3600) ;;
        ret (js_or result team_years_default)) w)
  ∧ (∀ w res d,
       healthy w →
       store w !! expiry_key (team_years_key ver year limitCount) = None →
       NEXT_PUBLIC_FIREBASE_PROJECT_ID E = None
       ∨ NEXT_PUBLIC_FIREBASE_API_KEY E = None →
       http_get E (BACKEND_URL E +:+ team_years_path year limitCount)
         = Responds res →
       ok res = true → json res = Ok d →
       ∃ w',
         getYearTeamYears E ver year limitCount w
           = (Ok (js_or d team_years_default), w')
         ∧ store w'
           = <[team_years_key ver year limitCount := d]>
               (<[expiry_key (team_years_key ver year limitCount) :=
                    JNum (clock w
                          + 1000 * (if year =? getFullYear E (clock w)
                                    then 60 else 3600))]>
                  (store w))).
Proof.
  destruct (getYearTeamYears_unfold E ver year limitCount) as [q Hq].
  split; [by exists q|].
  intros w res d Hw He Hm Hget Hok Hjson.
  rewrite Hq. unfold bind at 1.
  rewrite (cachedQuery_miss _ _ _ _ _ _ JNull w
             (getWithExpiry_absent _ _ Hw He) eq_refl).
  rewrite (primary_unavailable_run _ _ _ _ _ _ w
             (primary_unconfigured _ _ _ _ Hm eq_refl)).
  unfold backend_run. rewrite Hget, Hok, Hjson.
  rewrite setWithExpiry_healthy by exact Hw.
  eexists. split; reflexivity.
Qed.

Lemma team_years_key_and_ttl_witness :
  ∃ w',
    getYearTeamYears env_season_body "v3" 2026 (Some 50) world0
      = (Ok (js_or (JObj [("year", JNum 2024); ("team_years", JArr [])])
               team_years_default), w')
    ∧ store w'
      = <[team_years_key "v3" 2026 (Some 50) :=
            JObj [("year", JNum 2024); ("team_years", JArr [])]]>
          (<[expiry_key (team_years_key "v3" 2026 (Some 50)) :=
               JNum (clock world0
                     + 1000 * (if 2026 =? getFullYear env_season_body (clock world0)
                               then 60 else 3600))]>
             (store world0)).
Proof.
  apply (proj2 (team_years_key_and_ttl env_season_body "v3" 2026 (Some 50))
           world0
           {| ok := true;
              json := Ok (JObj [("year", JNum 2024); ("team_years", JArr [])]) |}).
  - reflexivity.
  - reflexivity.
  - left. reflexivity.
  - reflexivity.
  - reflexivity.
  - reflexivity.
Defined.

(** C9 as stated fails without a limit: the season 2024 is cached under
    "team_years_2024_all_v3", and nothing is stored under
    "team_years_2024_v3". *)
Lemma team_years_key_without_limit :
  store (snd (getYearTeamYears env_season_body version 2024 None world0))
    !! "team_years_2024_v3" = None
  ∧ store (snd (getYearTeamYears env_season_body version 2024 None world0))
      !! "team_years_2024_all_v3"
    = Some (JObj [("year", JNum 2024); ("team_years", JArr [])])
  ∧ store (snd (getYearTeamYears env_season_body version 2024 None world0))
      !! "team_years_2024_all_v3_expiry"
    = Some (JNum (clock world0 + 1000 * 3600)).
Proof. repeat split. Qed.

(** ** More on the TTL cache: repeated reads, overwrites, torn writes *)

(** On a working store a read returns, keeps the store working and moves
    neither the clock nor the trace. *)
Lemma getWithExpiry_healthy_run k w :
  healthy w →
  ∃ r w1, getWithExpiry k w = (Ok r, w1)
          ∧ healthy w1 ∧ clock w1 = clock w ∧ calls w1 = calls w.
Proof.
  intros Hw. unfold getWithExpiry, bind.
  rewrite idb_get_healthy by done.
  destruct (truthy _); simpl; [|by eexists _, _].
  unfold getTime. destruct (num_gt _ _).
  - rewrite idb_del_healthy by done.
    rewrite idb_del_healthy by done. by eexists _, _.
  - rewrite idb_get_healthy by done. by eexists _, _.
Qed.

(** X1.  Reading twice.  On a working store a second read of the same key at
    the same instant returns what the first returned and changes nothing
    more: an eviction happens once. *)
Theorem read_twice_same k w r w1 :
  healthy w → getWithExpiry k w = (r, w1) → getWithExpiry k w1 = (r, w1).
Proof.
  intros Hw. unfold getWithExpiry, bind.
  rewrite idb_get_healthy by done.
  destruct (truthy (default JUndefined (store w !! expiry_key k))) eqn:Ht; simpl.
  - unfold getTime.
    destruct (num_gt (clock w) (default JUndefined (store w !! expiry_key k)))
      eqn:Hg.
    + rewrite idb_del_healthy by done.
      rewrite idb_del_healthy by done.
      intros [= <- <-].
      rewrite idb_get_healthy by done. simpl.
      rewrite lookup_delete_ne by (symmetry; apply expiry_key_ne).
      by rewrite lookup_delete_eq.
    + rewrite idb_get_healthy by done. intros [= <- <-].
      rewrite idb_get_healthy by done. rewrite Ht. simpl. rewrite Hg.
      by rewrite idb_get_healthy by done.
  - intros [= <- <-]. rewrite idb_get_healthy by done. by rewrite Ht.
Qed.

Lemma read_twice_same_witness :
  getWithExpiry "team_1_v3"
    (with_clock (clock world0 + 99999) (written "team_1_v3" (JNum 7) 60 world0))
  = (Ok JNull,
     with_store (λ s, delete "team_1_v3" (delete (expiry_key "team_1_v3") s))
       (with_clock (clock world0 + 99999) (written "team_1_v3" (JNum 7) 60 world0)))
  ∧ getWithExpiry "team_1_v3"
      (with_store (λ s, delete "team_1_v3" (delete (expiry_key "team_1_v3") s))
         (with_clock (clock world0 + 99999) (written "team_1_v3" (JNum 7) 60 world0)))
    = (Ok JNull,
       with_store (λ s, delete "team_1_v3" (delete (expiry_key "team_1_v3") s))
         (with_clock (clock world0 + 99999) (written "team_1_v3" (JNum 7) 60 world0))).
Proof.
  assert (H : getWithExpiry "team_1_v3"
    (with_clock (clock world0 + 99999) (written "team_1_v3" (JNum 7) 60 world0))
  = (Ok JNull,
     with_store (λ s, delete "team_1_v3" (delete (expiry_key "team_1_v3") s))
       (with_clock (clock world0 + 99999)
          (written "team_1_v3" (JNum 7) 60 world0)))) by reflexivity.
  split; [exact H|].
  refine (read_twice_same "team_1_v3" _ _ _ _ H). reflexivity.
Defined.

(** X2.  Writing twice.  On a working store a second write under the same key
    leaves exactly the world the second write alone would have left: the
    last write wins and nothing of the first remains. *)
Theorem last_write_wins k v1 ttl1 v2 ttl2 w :
  healthy w →
  snd (setWithExpiry k v2 ttl2 (snd (setWithExpiry k v1 ttl1 w)))
  = snd (setWithExpiry k v2 ttl2 w).
Proof.
  intros Hw.
  rewrite (setWithExpiry_healthy k v1 ttl1 w Hw). simpl snd.
  rewrite (setWithExpiry_healthy k v2 ttl2 (written k v1 ttl1 w) Hw).
  rewrite (setWithExpiry_healthy k v2 ttl2 w Hw). simpl snd.
  unfold written, with_store. simpl. f_equal.
  rewrite (insert_insert_ne _ (expiry_key k) k) by apply expiry_key_ne.
  by rewrite !insert_insert_eq.
Qed.

Lemma last_write_wins_witness :
  snd (setWithExpiry "event_X_v3" (JNum 2) 300
         (snd (setWithExpiry "event_X_v3" (JNum 1) 60 world0)))
  = snd (setWithExpiry "event_X_v3" (JNum 2) 300 world0).
Proof.
  apply (last_write_wins "event_X_v3" (JNum 1) 60 (JNum 2) 300 world0).
  reflexivity.
Defined.

(** What a read returns on a working store, as a function of the two
    records and the clock. *)
Lemma getWithExpiry_view k w :
  healthy w →
  fst (getWithExpiry k w)
  = Ok (let expiry := default JUndefined (store w !! expiry_key k) in
        if negb (truthy expiry) then JNull
        else if num_gt (clock w) expiry then JNull
        else default JUndefined (store w !! k)).
Proof.
  intros Hw. unfold getWithExpiry, bind.
  rewrite idb_get_healthy by done. cbv zeta.
  destruct (truthy _); simpl; [|done].
  unfold getTime. destruct (num_gt _ _).
  - rewrite idb_del_healthy by done.
    by rewrite idb_del_healthy by done.
  - by rewrite idb_get_healthy by done.
Qed.

(** X3.  A write leaves unrelated entries alone.  On a working store, a read
    of [k'] returns the same after a write under [k] as before it, as long
    as the two records of [k'] are not the two records of [k]. *)
Theorem write_leaves_other_keys k v ttl k' w :
  healthy w → k' ≠ k → k' ≠ expiry_key k → expiry_key k' ≠ k →
  fst (getWithExpiry k' (snd (setWithExpiry k v ttl w)))
  = fst (getWithExpiry k' w).
Proof.
  intros Hw Hk Hke Hek.
  assert (Hee : expiry_key k' ≠ expiry_key k).
  { intros H. by apply expiry_key_inj in H. }
  rewrite (setWithExpiry_healthy k v ttl w Hw). simpl snd.
  rewrite (getWithExpiry_view k' (written k v ttl w) Hw).
  rewrite (getWithExpiry_view k' w Hw).
  simpl. by rewrite !lookup_insert_ne by done.
Qed.

Lemma write_leaves_other_keys_witness :
  fst (getWithExpiry "team_2_v3" (snd (setWithExpiry "team_1_v3" (JNum 7) 60 world0)))
  = fst (getWithExpiry "team_2_v3" world0).
Proof.
  apply (write_leaves_other_keys "team_1_v3" (JNum 7) 60 "team_2_v3" world0).
  - reflexivity.
  - discriminate.
  - discriminate.
  - discriminate.
Defined.

(** X4.  A torn write.  The expiry record is written before the value record;
    when the first [set] succeeds and the second rejects, the failure is
    swallowed, the old value record stays, and reads up to the new expiry
    instant return the old value. *)
Theorem torn_write_revives_old_value k old new ttl s t cs now :
  s !! k = Some old → 0 < t → 0 <= ttl → now <= t + 1000 * ttl →
  let w' := with_clock now
              (snd (setWithExpiry k new ttl (World s t [false; true] cs))) in
  fst (setWithExpiry k new ttl (World s t [false; true] cs)) = Ok tt
  ∧ store w' !! expiry_key k = Some (JNum (t + 1000 * ttl))
  ∧ getWithExpiry k w' = (Ok old, w').
Proof.
  intros Hold Ht Httl Hnow w'.
  split; [done|]. split.
  - subst w'. simpl. by rewrite lookup_insert_eq.
  - subst w'. simpl.
    rewrite (getWithExpiry_fresh k _ (t + 1000 * ttl)).
    + simpl. rewrite lookup_insert_ne by apply expiry_key_ne.
      by rewrite Hold.
    + done.
    + simpl. by rewrite lookup_insert_eq.
    + lia.
    + simpl. lia.
Qed.

Lemma torn_write_revives_old_value_witness :
  let w' := with_clock 1700000050000
              (snd (setWithExpiry "k" (JStr "new") 60
                      (World {["k" := JStr "old"]} 1700000000000 [false; true] []))) in
  fst (setWithExpiry "k" (JStr "new") 60
         (World {["k" := JStr "old"]} 1700000000000 [false; true] [])) = Ok tt
  ∧ store w' !! expiry_key "k" = Some (JNum (1700000000000 + 1000 * 60))
  ∧ getWithExpiry "k" w' = (Ok (JStr "old"), w').
Proof.
  apply (torn_write_revives_old_value "k" (JStr "old") (JStr "new") 60
           {["k" := JStr "old"]} 1700000000000 [] 1700000050000).
  - reflexivity.
  - lia.
  - lia.
  - lia.
Defined.

(** ** More on the resolver: exceptions, warm reads, Firestore outages *)

(** Whatever the primary query does, the source half of the resolver
    resolves: both of its [try] blocks catch. *)
Lemma cachedQuery_sources_total E k q path e w :
  ∃ r w', cachedQuery_sources E k q path e w = (Ok r, w').
Proof.
  assert (Hb : ∀ w2, ∃ r w', backend_run E k path e w2 = (Ok r, w')).
  { intros w2. destruct (backend_run_total E k path e w2) as [r Hr].
    destruct (backend_run E k path e w2) as [r' w']. simpl in Hr.
    subst r'. by exists r, w'. }
  destruct (isFirebaseConfigured E) eqn:Hc.
  - destruct (q (with_call CallPrimary w)) as [[r|err] w2] eqn:Hq.
    + destruct (nonempty_result r) eqn:Hr.
      * rewrite (sources_primary_ok E k q path e w r w2 Hc Hq Hr).
        by eexists _, _.
      * rewrite (sources_primary_nothing E k q path e w w2); [apply Hb|].
        right. split; [done|]. right. by exists r.
    + rewrite (sources_primary_nothing E k q path e w w2); [apply Hb|].
      right. split; [done|]. left. by exists err.
  - rewrite (sources_primary_nothing E k q path e w w); [apply Hb|].
    by left.
Qed.

(** X5.  Where exceptions come from.  The resolver throws exactly when its
    cache read throws, with the same error and in the same world: no
    failure of the primary query, of the backend or of a cache write can
    reach the caller. *)
Theorem resolver_throws_only_from_cache_read E k q path e w err w' :
  cachedQuery E k q path e w = (Throw err, w')
  ↔ getWithExpiry k w = (Throw err, w').
Proof.
  unfold cachedQuery, bind.
  destruct (getWithExpiry k w) as [[c|err0] w1]; [|done].
  split; [|done].
  destruct (truthy c); [done|].
  destruct (cachedQuery_sources_total E k q path e w1) as (r & w2 & ->).
  done.
Qed.

Lemma fetchDocument_run E c id w :
  fetchDocument E c id w = (Ok (doc_or_null (firestore_getDoc E c id)), w).
Proof.
  unfold fetchDocument, try_catch, bind, lift, ret, doc_or_null.
  by destruct (firestore_getDoc E c id) as [[d|]|err].
Qed.

(** [fetchTeamYears] with no limit, the limit 0 or a positive limit is the
    collection fetch with the constraints built from its arguments. *)
Lemma fetchTeamYears_run E y l w :
  (∀ n, l = Some n → 0 <= n) →
  fetchTeamYears E y l w
  = (Ok (docs_or_empty
           (firestore_getDocs E "team_years" (team_years_constraints y l))), w).
Proof.
  intros Hl. unfold fetchTeamYears, team_years_constraints.
  destruct l as [n|]; [|unfold bind, ret; apply fetchCollection_run].
  specialize (Hl n eq_refl).
  destruct (Z.eqb_spec n 0); simpl negb; cbv iota;
    [unfold bind, ret; apply fetchCollection_run|].
  unfold bind, ret, lift, sdk_limit.
  destruct (Z.leb_spec n 0); [lia|]. apply fetchCollection_run.
Qed.

(** A negative limit is rejected by [limit] before any request is made:
    the rejection is that of [fetchTeamYears]. *)
Lemma fetchTeamYears_negative E y n w :
  n < 0 →
  fetchTeamYears E y (Some n) w
  = (Throw ("Function limit() requires a positive number, but it was: "
            +:+ pretty n +:+ "."), w).
Proof.
  intros Hn. unfold fetchTeamYears.
  destruct (Z.eqb_spec n 0); [lia|]. simpl negb. cbv iota.
  unfold bind, ret, lift, sdk_limit.
  by destruct (Z.leb_spec n 0); [|lia].
Qed.

(** Each resource query function is the resolver applied to the request's
    key, path and ttl with some primary query, followed by the request's
    default. *)
Lemma run_request_unfold E ver r :
  ∃ q, ∀ w, run_request E ver r w
            = (result <- cachedQuery E (cacheKey ver r) q (request_path r)
                           (request_ttl E r (clock w)) ;;
               ret (match request_default r with
                    | Some d => js_or result d
                    | None => result
                    end)) w.
Proof.
  destruct r as [|n|y l|n y|n|y|k|k|n y|k]; simpl run_request;
    unfold cacheKey, request_path, request_ttl, request_default;
    simpl key_stem.
  - eexists. intros w; rewrite ?append_assoc; reflexivity.
  - eexists. intros w; rewrite bind_ret_r, ?append_assoc; reflexivity.
  - unfold getYearTeamYears.
    exists (teamYears <- fetchTeamYears E y l ;;
            yearData <- fetchYear E y ;;
            ret (JObj [("year", yearData); ("team_years", docs teamYears)])).
    intros w. destruct l as [l|]; [destruct (l =? 0)|]; simpl negb; cbv iota;
      rewrite ?append_assoc; reflexivity.
  - eexists. intros w; rewrite bind_ret_r, ?append_assoc; reflexivity.
  - eexists. intros w; rewrite ?append_assoc; reflexivity.
  - exists (events <- fetchEvents E y ;;
            yearData <- fetchYear E y ;;
            ret (JObj [("year", yearData); ("events", docs events)])).
    intros w. rewrite bind_ret_r, ?append_assoc. reflexivity.
  - eexists. intros w; rewrite bind_ret_r, ?append_assoc; reflexivity.
  - eexists. intros w; rewrite ?append_assoc; reflexivity.
  - eexists. intros w; rewrite ?append_assoc; reflexivity.
  - eexists. intros w; rewrite ?append_assoc; reflexivity.
Qed.

(** X6.  No resource query function throws while the store works: each of the
    ten resolves, whatever Firestore and the backend do. *)
Theorem resource_functions_resolve E ver r w :
  healthy w → ∃ v w', run_request E ver r w = (Ok v, w').
Proof.
  intros Hw.
  destruct (run_request_unfold E ver r) as (q & ->).
  unfold bind at 1.
  destruct (cachedQuery E (cacheKey ver r) q (request_path r)
              (request_ttl E r (clock w)) w) as [[v|err] w'] eqn:Hrun.
  - by eexists _, _.
  - apply resolver_throws_only_from_cache_read in Hrun.
    destruct (getWithExpiry_healthy_run (cacheKey ver r) w Hw)
      as (c & w1 & Hread & _).
    congruence.
Qed.

Lemma resource_functions_resolve_witness :
  ∃ v w', run_request env_down "v3" (ReqEventRankings "USCAFFFAQ") world0
          = (Ok v, w').
Proof.
  apply (resource_functions_resolve env_down "v3"
           (ReqEventRankings "USCAFFFAQ") world0).
  reflexivity.
Defined.

(** X7.  The functions that end in [result || default] (all teams, a team's
    years, an event's matches and rankings, a team's season matches, the
    team-years of a season) never resolve to a falsy value: a caller
    never sees [null] from them. *)
Theorem defaulted_functions_never_falsy E ver r w v w' :
  is_Some (request_default r) →
  run_request E ver r w = (Ok v, w') → truthy v = true.
Proof.
  intros [d Hd].
  destruct (run_request_unfold E ver r) as (q & ->).
  rewrite Hd. unfold bind at 1.
  destruct (cachedQuery _ _ _ _ _ _) as [[c|err] w1]; [|done].
  intros [= <- _]. unfold js_or.
  destruct (truthy c) eqn:Hc; [done|].
  destruct r; simpl in Hd; try discriminate; by injection Hd as <-.
Qed.

Lemma defaulted_functions_never_falsy_witness :
  truthy (JArr []) = true.
Proof.
  apply (defaulted_functions_never_falsy env_down "v3"
           (ReqEventMatches "USCAFFFAQ") world0 (JArr [])
           (with_call
              (CallFetch "http://127.0.0.1:8000/v3/site/v3/site/events/USCAFFFAQ/matches")
              (with_call CallPrimary world0))).
  - by eexists.
  - reflexivity.
Defined.

(** X8.  The table of the resource functions, observed on the store.  On a
    working store with no expiry record for the request's key and with the
    primary source unconfigured, a backend success makes exactly one
    request, to [BACKEND_URL + request_path r], and leaves the body under
    [cacheKey ver r] with the expiry instant [now + 1000 * request_ttl]. *)
Theorem resource_function_table E ver r w res d :
  healthy w →
  store w !! expiry_key (cacheKey ver r) = None →
  NEXT_PUBLIC_FIREBASE_PROJECT_ID E = None
  ∨ NEXT_PUBLIC_FIREBASE_API_KEY E = None →
  http_get E (BACKEND_URL E +:+ request_path r) = Responds res →
  ok res = true → json res = Ok d →
  ∃ w',
    run_request E ver r w
      = (Ok (match request_default r with
             | Some dflt => js_or d dflt
             | None => d
             end), w')
    ∧ calls w' = calls w ++ [CallFetch (BACKEND_URL E +:+ request_path r)]
    ∧ store w'
      = <[cacheKey ver r := d]>
          (<[expiry_key (cacheKey ver r) :=
               JNum (clock w + 1000 * request_ttl E r (clock w))]> (store w)).
Proof.
  intros Hw He Hm Hget Hok Hjson.
  destruct (run_request_unfold E ver r) as (q & ->).
  unfold bind at 1.
  rewrite (cachedQuery_miss _ _ _ _ _ _ JNull w
             (getWithExpiry_absent _ _ Hw He) eq_refl).
  rewrite (primary_unavailable_run _ _ _ _ _ _ w
             (primary_unconfigured _ _ _ _ Hm eq_refl)).
  unfold backend_run. rewrite Hget, Hok, Hjson.
  rewrite setWithExpiry_healthy by exact Hw.
  eexists. split; [reflexivity|]. split; reflexivity.
Qed.

Lemma resource_function_table_witness :
  ∃ w',
    run_request env_backend "v3" (ReqTeam 1234) world0
      = (Ok (match request_default (ReqTeam 1234) with
             | Some dflt => js_or (JObj [("team", JNum 1234)]) dflt
             | None => JObj [("team", JNum 1234)]
             end), w')
    ∧ calls w' = calls world0
                 ++ [CallFetch (BACKEND_URL env_backend +:+ request_path (ReqTeam 1234))]
    ∧ store w'
      = <[cacheKey "v3" (ReqTeam 1234) := JObj [("team", JNum 1234)]]>
          (<[expiry_key (cacheKey "v3" (ReqTeam 1234)) :=
               JNum (clock world0
                     + 1000 * request_ttl env_backend (ReqTeam 1234) (clock world0))]>
             (store world0)).
Proof.
  apply (resource_function_table env_backend "v3" (ReqTeam 1234) world0
           {| ok := true; json := Ok (JObj [("team", JNum 1234)]) |}).
  - reflexivity.
  - reflexivity.
  - right. reflexivity.
  - reflexivity.
  - reflexivity.
  - reflexivity.
Defined.

(** A truthy value that comes out of the sources on a working store has
    been written to the cache on the way. *)
Lemma sources_truthy_written E k q path e w1 r w3 :
  healthy w1 → pure_query q →
  cachedQuery_sources E k q path e w1 = (Ok r, w3) → truthy r = true →
  ∃ w', w3 = written k r e w' ∧ healthy w' ∧ clock w' = clock w1.
Proof.
  intros Hw Hq Hrun Hr.
  assert (Hb : ∀ w2, healthy w2 → clock w2 = clock w1 →
                     backend_run E k path e w2 = (Ok r, w3) →
                     ∃ w', w3 = written k r e w' ∧ healthy w' ∧ clock w' = clock w1).
  { intros w2 Hw2 Hc2. unfold backend_run.
    destruct (http_get E _) as [|res].
    - intros [= <- _]. done.
    - destruct (ok res); [|intros [= <- _]; done].
      destruct (json res) as [d|err]; [|intros [= <- _]; done].
      rewrite setWithExpiry_healthy by exact Hw2.
      intros [= -> <-]. by eexists. }
  destruct (isFirebaseConfigured E) eqn:Hc.
  - destruct (q (with_call CallPrimary w1)) as [[rq|err] w2] eqn:Hrq.
    + assert (w2 = with_call CallPrimary w1) as ->.
      { pose proof (Hq (with_call CallPrimary w1)) as H. by rewrite Hrq in H. }
      destruct (nonempty_result rq) eqn:Hne.
      * rewrite (sources_primary_ok E k q path e w1 rq _ Hc Hrq Hne) in Hrun.
        rewrite setWithExpiry_healthy in Hrun by exact Hw.
        injection Hrun as -> <-. by eexists.
      * rewrite (sources_primary_nothing E k q path e w1
                   (with_call CallPrimary w1)) in Hrun.
        -- by apply Hb in Hrun.
        -- right. split; [done|]. right. by exists rq.
    + assert (w2 = with_call CallPrimary w1) as ->.
      { pose proof (Hq (with_call CallPrimary w1)) as H. by rewrite Hrq in H. }
      rewrite (sources_primary_nothing E k q path e w1
                 (with_call CallPrimary w1)) in Hrun.
      * by apply Hb in Hrun.
      * right. split; [done|]. left. by exists err.
  - rewrite (sources_primary_nothing E k q path e w1 w1) in Hrun.
    + by apply Hb in Hrun.
    + by left.
Qed.

(** X9.  Warm after cold.  On a working store, when a resolution that missed
    the cache obtains a truthy value from the sources, every resolution of
    the same key up to the expiry instant returns that value from the
    cache and leaves the world, trace included, untouched: no source is
    asked again. *)
Theorem warm_after_cold E k q path e w0 c w1 r w3 q' path' e' t :
  healthy w0 → pure_query q → 0 < clock w0 → 0 <= e →
  getWithExpiry k w0 = (Ok c, w1) → truthy c = false →
  cachedQuery E k q path e w0 = (Ok r, w3) → truthy r = true →
  t <= clock w0 + 1000 * e →
  cachedQuery E k q' path' e' (with_clock t w3) = (Ok r, with_clock t w3).
Proof.
  intros Hw Hq Hclock He Hread Hc Hrun Hr Ht.
  rewrite (cachedQuery_miss _ _ _ _ _ _ _ _ Hread Hc) in Hrun.
  destruct (getWithExpiry_healthy_run k w0 Hw) as (c' & w1' & Hread' & Hw1 & Hc1 & _).
  rewrite Hread in Hread'. injection Hread' as <- <-.
  destruct (sources_truthy_written E k q path e w1 r w3 Hw1 Hq Hrun Hr)
    as (w' & -> & Hw' & Hcw').
  apply cachedQuery_hit; [|done].
  apply read_after_write; [done | lia | lia].
Qed.

Lemma warm_after_cold_witness :
  cachedQuery env_primary "team_1234_v3" (throw "never asked") "/nowhere" 5
    (with_clock (clock world0 + 3600000)
       (written "team_1234_v3" (JObj [("team", JNum 1234)]) 3600
          (with_call CallPrimary world0)))
  = (Ok (JObj [("team", JNum 1234)]),
     with_clock (clock world0 + 3600000)
       (written "team_1234_v3" (JObj [("team", JNum 1234)]) 3600
          (with_call CallPrimary world0))).
Proof.
  apply (warm_after_cold env_primary "team_1234_v3" (fetchTeam env_primary 1234)
           "/v3/site/teams/1234" 3600 world0 JNull world0).
  - reflexivity.
  - intros w. reflexivity.
  - simpl; lia.
  - lia.
  - reflexivity.
  - reflexivity.
  - reflexivity.
  - reflexivity.
  - simpl; lia.
Defined.

(** X10.  Firestore outages and missing data.  With the primary source
    configured, a document query whose document is missing or whose
    request fails, and a collection query that finds nothing or whose
    request fails, never throw: the resolver sees [null] or [[]], calls
    the primary once and then the backend once, and returns the backend's
    body on success. *)
Theorem firestore_failure_falls_back E k c id cs path e w0 cached w1 :
  getWithExpiry k w0 = (Ok cached, w1) → truthy cached = false →
  isFirebaseConfigured E = true →
  (firestore_getDoc E c id = Ok None ∨ ∃ err, firestore_getDoc E c id = Throw err) →
  (firestore_getDocs E c cs = Ok [] ∨ ∃ err, firestore_getDocs E c cs = Throw err) →
  ∀ q, q = fetchDocument E c id ∨ q = as_array (fetchCollection E c cs) →
  ∃ r w3,
    cachedQuery E k q path e w0 = (Ok r, w3)
    ∧ calls w3 = calls w1 ++ [CallPrimary; CallFetch (BACKEND_URL E +:+ path)]
    ∧ (∀ res d,
         http_get E (BACKEND_URL E +:+ path) = Responds res →
         ok res = true → json res = Ok d → r = d).
Proof.
  intros Hread Hc Hconf Hdoc Hcol q Hq.
  rewrite (cachedQuery_miss _ _ _ _ _ _ _ _ Hread Hc).
  assert (Hrun : ∃ v, q (with_call CallPrimary w1) = (Ok v, with_call CallPrimary w1)
                      ∧ nonempty_result v = false).
  { destruct Hq as [-> | ->].
    - exists JNull. rewrite fetchDocument_run.
      by destruct Hdoc as [-> | [err ->]].
    - exists (JArr []). unfold as_array, bind. rewrite fetchCollection_run.
      by destruct Hcol as [-> | [err ->]]. }
  destruct Hrun as (v & Hv & Hne).
  rewrite (sources_primary_nothing E k q path e w1 (with_call CallPrimary w1))
    by (right; split; [done|]; right; by exists v).
  destruct (backend_run_total E k path e (with_call CallPrimary w1)) as [r Hr].
  pose proof (backend_run_calls E k path e (with_call CallPrimary w1)) as Hcalls.
  destruct (backend_run E k path e (with_call CallPrimary w1)) as [r' w3] eqn:Hb.
  simpl in Hr, Hcalls. subst r'. exists r, w3.
  split; [done|]. split.
  - rewrite Hcalls. simpl. by rewrite <- app_assoc.
  - intros res d Hget Hok Hjson. unfold backend_run in Hb.
    rewrite Hget, Hok, Hjson in Hb. by injection Hb as ->.
Qed.

(** Firestore is configured and failing; the backend serves every request
    with the body [[1]]. *)
Lemma firestore_failure_falls_back_witness :
  ∃ r w3,
    cachedQuery env_500 "team_1234_v3" (fetchDocument env_500 "teams" "1234")
      "/v3/site/teams/1234" 3600 world0 = (Ok r, w3)
    ∧ calls w3 = calls world0
                 ++ [CallPrimary;
                     CallFetch (BACKEND_URL env_500 +:+ "/v3/site/teams/1234")]
    ∧ (∀ res d,
         http_get env_500 (BACKEND_URL env_500 +:+ "/v3/site/teams/1234")
           = Responds res →
         ok res = true → json res = Ok d → r = d).
Proof.
  apply (firestore_failure_falls_back env_500 "team_1234_v3" "teams" "1234" []
           "/v3/site/teams/1234" 3600 world0 JNull world0).
  - reflexivity.
  - reflexivity.
  - reflexivity.
  - right. by eexists.
  - right. by eexists.
  - left. reflexivity.
Defined.

Lemma getYearTeamYears_primary E ver year limitCount w :
  getYearTeamYears E ver year limitCount w
  = (result <- cachedQuery E (team_years_key ver year limitCount)
                 (teamYears <- fetchTeamYears E year limitCount ;;
                  yearData <- fetchYear E year ;;
                  ret (JObj [("year", yearData); ("team_years", docs teamYears)]))
                 (team_years_path year limitCount)
                 (if year =? getFullYear E (clock w) then 60 else 3600) ;;
     ret (js_or result team_years_default)) w.
Proof.
  unfold getYearTeamYears, team_years_key, team_years_path.
  by destruct limitCount as [n|]; [destruct (n =? 0)|].
Qed.

(** X11.  The two composite primaries are never empty.  With the primary source
    configured and no expiry record for the key, the events of a season
    and, for a limit that is absent, 0 or positive, the team-years of a
    season resolve to the record assembled from Firestore, [null] and [[]]
    standing in for whatever Firestore failed to deliver; that record is
    cached, and the backend is not called even when every Firestore
    request fails.  A negative limit is the one way to the backend: the
    primary query rejects, and the resolver makes its one backend
    request. *)
Theorem composite_primaries_and_the_backend E ver year limitCount w :
  healthy w → isFirebaseConfigured E = true →
  (store w !! expiry_key ("events_" +:+ pretty year +:+ "_" +:+ ver) = None →
   ∃ v w',
     getYearEvents E ver year w = (Ok v, w')
     ∧ v = JObj [("year", doc_or_null (firestore_getDoc E "years" (pretty year)));
                 ("events",
                  docs (docs_or_empty
                          (firestore_getDocs E "events"
                             [where_ "year" "==" (JNum year); orderBy "time" asc])))]
     ∧ calls w' = calls w ++ [CallPrimary]
     ∧ store w' !! ("events_" +:+ pretty year +:+ "_" +:+ ver) = Some v)
  ∧ (store w !! expiry_key (team_years_key ver year limitCount) = None →
     (∀ n, limitCount = Some n → 0 <= n) →
     ∃ v w',
       getYearTeamYears E ver year limitCount w = (Ok v, w')
       ∧ v = JObj [("year", doc_or_null (firestore_getDoc E "years" (pretty year)));
                   ("team_years",
                    docs (docs_or_empty
                            (firestore_getDocs E "team_years"
                               (team_years_constraints year limitCount))))]
       ∧ calls w' = calls w ++ [CallPrimary]
       ∧ store w' !! team_years_key ver year limitCount = Some v)
  ∧ (store w !! expiry_key (team_years_key ver year limitCount) = None →
     (∃ n, limitCount = Some n ∧ n < 0) →
     ∃ v w',
       getYearTeamYears E ver year limitCount w = (Ok v, w')
       ∧ calls w' = calls w
                    ++ [CallPrimary;
                        CallFetch (BACKEND_URL E
                                   +:+ team_years_path year limitCount)]).
Proof.
  intros Hw Hconf. split; [|split].
  - intros He. unfold getYearEvents, bind at 1, getTime.
    rewrite (cachedQuery_miss _ _ _ _ _ _ JNull w
               (getWithExpiry_absent _ _ Hw He) eq_refl).
    assert (Hq : ∀ w0,
      (events <- fetchEvents E year ;;
       yearData <- fetchYear E year ;;
       ret (JObj [("year", yearData); ("events", docs events)])) w0
      = (Ok (JObj [("year", doc_or_null (firestore_getDoc E "years" (pretty year)));
                   ("events",
                    docs (docs_or_empty
                            (firestore_getDocs E "events"
                               [where_ "year" "==" (JNum year);
                                orderBy "time" asc])))]), w0)).
    { intros w0. unfold bind, fetchEvents, fetchYear.
      by rewrite fetchCollection_run, fetchDocument_run. }
    rewrite (sources_primary_ok E _ _ _ _ w _ _ Hconf
               (Hq (with_call CallPrimary w)) eq_refl).
    rewrite setWithExpiry_healthy by exact Hw.
    eexists _, _. split; [reflexivity|]. split; [reflexivity|].
    split; [reflexivity|]. simpl. by rewrite lookup_insert_eq.
  - intros He Hl.
    assert (Hq : ∀ w0,
      (teamYears <- fetchTeamYears E year limitCount ;;
       yearData <- fetchYear E year ;;
       ret (JObj [("year", yearData); ("team_years", docs teamYears)])) w0
      = (Ok (JObj [("year", doc_or_null (firestore_getDoc E "years" (pretty year)));
                   ("team_years",
                    docs (docs_or_empty
                            (firestore_getDocs E "team_years"
                               (team_years_constraints year limitCount))))]),
         w0)).
    { intros w0. unfold bind at 1. rewrite (fetchTeamYears_run _ _ _ _ Hl).
      unfold bind, fetchYear. by rewrite fetchDocument_run. }
    rewrite getYearTeamYears_primary. unfold bind at 1.
    rewrite (cachedQuery_miss _ _ _ _ _ _ JNull w
               (getWithExpiry_absent _ _ Hw He) eq_refl).
    rewrite (sources_primary_ok E _ _ _ _ w _ _ Hconf
               (Hq (with_call CallPrimary w)) eq_refl).
    rewrite setWithExpiry_healthy by exact Hw.
    eexists _, _. split; [reflexivity|]. split; [reflexivity|].
    split; [reflexivity|]. simpl. by rewrite lookup_insert_eq.
  - intros He (n & -> & Hn).
    rewrite getYearTeamYears_primary. unfold bind at 1.
    rewrite (cachedQuery_miss _ _ _ _ _ _ JNull w
               (getWithExpiry_absent _ _ Hw He) eq_refl).
    assert (Hq :
      (teamYears <- fetchTeamYears E year (Some n) ;;
       yearData <- fetchYear E year ;;
       ret (JObj [("year", yearData); ("team_years", docs teamYears)]))
        (with_call CallPrimary w)
      = (Throw ("Function limit() requires a positive number, but it was: "
                +:+ pretty n +:+ "."), with_call CallPrimary w)).
    { unfold bind at 1. by rewrite (fetchTeamYears_negative _ _ _ _ Hn). }
    rewrite (primary_unavailable_run E _ _ _ _ w (with_call CallPrimary w)
               (primary_throws _ _ _ _ _ Hconf Hq)).
    pose proof (backend_run_total E (team_years_key ver year (Some n))
                  (team_years_path year (Some n))
                  (if year =? getFullYear E (clock w) then 60 else 3600)
                  (with_call CallPrimary w)) as [r Hr].
    pose proof (backend_run_calls E (team_years_key ver year (Some n))
                  (team_years_path year (Some n))
                  (if year =? getFullYear E (clock w) then 60 else 3600)
                  (with_call CallPrimary w)) as Hcalls.
    destruct (backend_run _ _ _ _ _) as [r' w3].
    simpl in Hr, Hcalls. subst r'.
    eexists _, _. split; [reflexivity|].
    rewrite Hcalls. simpl. by rewrite <- app_assoc.
Qed.

(** A season whose Firestore requests all fail, asked for with no limit:
    the record of two empty halves is returned and cached. *)
Lemma composite_primaries_and_the_backend_witness :
  ∃ v w',
    getYearTeamYears env_500 "v3" 2026 None world0 = (Ok v, w')
    ∧ v = JObj [("year", doc_or_null (firestore_getDoc env_500 "years" (pretty 2026)));
                ("team_years",
                 docs (docs_or_empty
                         (firestore_getDocs env_500 "team_years"
                            (team_years_constraints 2026 None))))]
    ∧ calls w' = calls world0 ++ [CallPrimary]
    ∧ store w' !! team_years_key "v3" 2026 None = Some v.
Proof.
  apply (proj1 (proj2 (composite_primaries_and_the_backend env_500 "v3" 2026
                         None world0 eq_refl eq_refl))).
  - reflexivity.
  - intros n Hn. discriminate Hn.
Defined.

(** ** The legacy resolver [query] *)

(** When the cache check of [query] fails, the backend is all there is. *)
Lemma query_miss E k path cb minLength e w c w1 :
  getWithExpiry k w = (Ok c, w1) →
  truthy c && ((minLength =? 0) || gt_num (js_length c) minLength) = false →
  query E k path cb minLength e w = backend_run E k path e w1.
Proof.
  intros Hread Hc. unfold query, bind at 1. rewrite Hread, Hc.
  unfold backend_run. unfold_monad.
  destruct (http_get E (BACKEND_URL E +:+ path)) as [|res]; [done|].
  destruct (ok res); [|done].
  destruct (json res) as [d|err]; [|done].
  destruct (setWithExpiry_total k d e
              (with_call (CallFetch (BACKEND_URL E +:+ path)) w1))
    as (w' & -> & _). done.
Qed.

(** X12.  With no minimum length, [query] is the resolver of an installation
    without Firestore: it never consults the primary source, and agrees
    with [cachedQuery] whenever the primary source is unconfigured. *)
Theorem query_is_resolver_without_primary E k q path cb e w :
  isFirebaseConfigured E = false →
  query E k path cb 0 e w = cachedQuery E k q path e w.
Proof.
  intros Hconf.
  destruct (getWithExpiry k w) as [[c|err] w1] eqn:Hread.
  - destruct (truthy c) eqn:Hc.
    + rewrite (cachedQuery_hit E k q path e w c w1 Hread Hc).
      unfold query, bind at 1. by rewrite Hread, Hc.
    + rewrite (cachedQuery_miss E k q path e w c w1 Hread Hc).
      rewrite (query_miss E k path cb 0 e w c w1 Hread) by (by rewrite Hc).
      symmetry. apply sources_primary_nothing. by left.
  - unfold query, cachedQuery, bind. by rewrite Hread.
Qed.

Lemma query_is_resolver_without_primary_witness :
  query env_backend "team_1234_v3" "/v3/site/teams/1234" true 0 3600 world0
  = cachedQuery env_backend "team_1234_v3" (fetchTeam env_backend 1234)
      "/v3/site/teams/1234" 3600 world0.
Proof.
  apply (query_is_resolver_without_primary env_backend "team_1234_v3"
           (fetchTeam env_backend 1234) "/v3/site/teams/1234" true 3600 world0).
  reflexivity.
Defined.

(** X13.  The minimum-length rule of [query].  A cached array is served exactly
    when [minLength] is 0 or the array is longer than [minLength];
    otherwise the backend is asked, once.  A cached record without a
    [length] field is never served under a non-zero [minLength]: every
    call asks the backend again. *)
Theorem query_minimum_length E k path cb minLength e w w1 :
  (∀ items,
     getWithExpiry k w = (Ok (JArr items), w1) →
     (minLength = 0 ∨ minLength < Z.of_nat (length items) →
      query E k path cb minLength e w = (Ok (JArr items), w1))
     ∧ (minLength ≠ 0 → Z.of_nat (length items) <= minLength →
        calls (snd (query E k path cb minLength e w))
        = calls w1 ++ [CallFetch (BACKEND_URL E +:+ path)]))
  ∧ (∀ fields,
       getWithExpiry k w = (Ok (JObj fields), w1) →
       get_field "length" fields = JUndefined → minLength ≠ 0 →
       calls (snd (query E k path cb minLength e w))
       = calls w1 ++ [CallFetch (BACKEND_URL E +:+ path)]).
Proof.
  split.
  - intros items Hread. split.
    + intros Hlen. unfold query, bind at 1. rewrite Hread.
      assert (Hc : truthy (JArr items)
                   && ((minLength =? 0)
                       || gt_num (js_length (JArr items)) minLength) = true).
      { simpl. unfold gt_num. simpl. destruct Hlen as [-> | Hlt]; [done|].
        apply orb_true_iff. right. by apply Z.ltb_lt. }
      by rewrite Hc.
    + intros Hne Hle.
      rewrite (query_miss E k path cb minLength e w _ w1 Hread).
      * apply backend_run_calls.
      * simpl. unfold gt_num. simpl.
        apply orb_false_iff. split; [by apply Z.eqb_neq | by apply Z.ltb_ge].
  - intros fields Hread Hlen Hne.
    rewrite (query_miss E k path cb minLength e w _ w1 Hread).
    + apply backend_run_calls.
    + simpl. rewrite Hlen. unfold gt_num. simpl.
      rewrite orb_false_r. by apply Z.eqb_neq.
Qed.

Lemma query_minimum_length_witness :
  calls (snd (query env_down "teams" "/teams" false 5 60
                (written "teams" (JArr [JNum 1; JNum 2]) 60 world0)))
  = calls (written "teams" (JArr [JNum 1; JNum 2]) 60 world0)
    ++ [CallFetch (BACKEND_URL env_down +:+ "/teams")].
Proof.
  apply (proj2 (proj1 (query_minimum_length env_down "teams" "/teams" false 5 60
                  (written "teams" (JArr [JNum 1; JNum 2]) 60 world0)
                  (written "teams" (JArr [JNum 1; JNum 2]) 60 world0))
                  [JNum 1; JNum 2] eq_refl)).
  - lia.
  - simpl; lia.
Defined.

(** ** Tiebreaker point names *)

(** X14.  Whatever the season, and whether or not the table has an entry for it
    or a name at the index, [getRPName] returns "TBP" followed by the
    index plus one. *)
Theorem getRPName_is_numbered year index :
  getRPName year index = "TBP" +:+ pretty (index + 1).
Proof.
  assert (Hnames : ∀ names,
    names = ["TBP1"; "TBP2"; "TBP3"] ∨ names = ["TBP1"; "TBP2"] →
    match array_get names index with
    | Some name => if String.eqb name "" then "TBP" +:+ pretty (index + 1) else name
    | None => "TBP" +:+ pretty (index + 1)
    end = "TBP" +:+ pretty (index + 1)).
  { intros names Hn. unfold array_get.
    destruct (Z.ltb_spec index 0) as [Hneg|Hpos]; [done|].
    destruct (Z.to_nat index) as [|[|[|n]]] eqn:Hi.
    - assert (index = 0) as -> by lia. by destruct Hn as [-> | ->].
    - assert (index = 1) as -> by lia. by destruct Hn as [-> | ->].
    - assert (index = 2) as -> by lia. by destruct Hn as [-> | ->].
    - by destruct Hn as [-> | ->]. }
  unfold getRPName. apply Hnames.
  unfold RP_NAMES, table_get.
  repeat (destruct (_ =? year); [by auto|]). by left.
Qed.

(** ** The match section: counts and the two sections *)

Lemma count_by_fold (p : doc → bool) (l : list doc) (a : Z) :
  fold_left (λ acc m, if p m then acc + 1 else acc) l a
  = a + Z.of_nat (length (List.filter p l)).
Proof.
  revert a. induction l as [|m l IH]; intros a; simpl; [lia|].
  rewrite IH. destruct (p m); simpl; lia.
Qed.

Lemma filter_length_bound {A} (p : A → bool) (l : list A) :
  (length (List.filter p l) <= length l)%nat.
Proof.
  induction l as [|x l IH]; simpl; [lia|]. destruct (p x); simpl; lia.
Qed.

(** X15.  The number of correct predictions is the number of completed matches
    of the section whose predicted and actual winners are strictly equal;
    it lies between 0 and the number [N] of completed matches, which is at
    most the number of matches of the event: the accuracy ratio
    [correctPreds / max(N, 1)] never exceeds 1. *)
Theorem correct_predictions_bounded quals matches :
  correctPreds quals matches
  = Z.of_nat (length (List.filter predicted_right
                        (List.filter is_completed (section_matches quals matches))))
  ∧ 0 <= correctPreds quals matches <= completed_count quals matches
  ∧ completed_count quals matches <= Z.of_nat (length matches).
Proof.
  unfold correctPreds, completed_count. rewrite count_by_fold, Z.add_0_l.
  split; [done|]. split; [split|].
  - apply Nat2Z.is_nonneg.
  - apply Nat2Z.inj_le, filter_length_bound.
  - apply Nat2Z.inj_le. etrans; [apply filter_length_bound|].
    apply filter_length_bound.
Qed.

(** X16.  When every match carries a boolean [elim], the qualification section
    and the elimination section split the event's matches between them:
    together they are a rearrangement of all matches.  In any case no
    match appears in both. *)
Theorem sections_partition_matches matches :
  (∀ m, In m (section_matches true matches) →
        In m (section_matches false matches) → False)
  ∧ (Forall (λ m, ∃ b, get_field "elim" m = JBool b) matches →
     Permutation (section_matches true matches ++ section_matches false matches)
       matches).
Proof.
  split.
  - intros m Hq He. unfold section_matches in *.
    apply filter_In in Hq as [_ Hq]. apply filter_In in He as [_ He].
    destruct (get_field "elim" m); try done. by destruct b.
  - induction 1 as [|m l [b Hb] Hl IH]; [done|].
    unfold section_matches in *. simpl. rewrite Hb. simpl.
    destruct b; simpl.
    + rewrite <- Permutation_middle. by constructor.
    + by constructor.
Qed.

Lemma sections_partition_matches_witness :
  Permutation
    (section_matches true [[("elim", JBool true)]; [("elim", JBool false)]]
     ++ section_matches false [[("elim", JBool true)]; [("elim", JBool false)]])
    [[("elim", JBool true)]; [("elim", JBool false)]].
Proof.
  apply (proj2 (sections_partition_matches
                  [[("elim", JBool true)]; [("elim", JBool false)]])).
  repeat constructor; by eexists.
Defined.

(** ** The Firebase singletons *)

(** X17.  Once [getDb] has succeeded, the module holds its database: every
    later call returns the same handle without touching the SDK, whatever
    state the SDK is in, and the app chosen before is kept.  An app that
    the SDK already has registered is reused rather than initialised
    again. *)
Theorem getDb_is_a_singleton {SDK FirebaseApp Firestore : Type}
    (getApps : SDK → list FirebaseApp)
    (initializeApp : SDK → result FirebaseApp * SDK)
    (getFirestore : FirebaseApp → SDK → result Firestore * SDK)
    (m : module_vars FirebaseApp Firestore) (s : SDK) d m' s' :
  getDb _ _ _ getApps initializeApp getFirestore m s = (Ok d, m', s') →
  db_var _ _ m' = Some d
  ∧ (∀ s2, getDb _ _ _ getApps initializeApp getFirestore m' s2 = (Ok d, m', s2))
  ∧ (∀ a, app_var _ _ m = Some a → app_var _ _ m' = Some a)
  ∧ (∀ a rest, app_var _ _ m = None → db_var _ _ m = None →
               getApps s = a :: rest →
               app_var _ _ m' = Some a).
Proof.
  unfold getDb, getFirebaseApp. intros Hrun.
  destruct m as [[a0|] [d0|]]; simpl in *.
  - injection Hrun as <- <- <-. by repeat split.
  - destruct (getFirestore a0 s) as [[d1|e] s1]; [|done].
    injection Hrun as <- <- <-. simpl. by repeat split.
  - injection Hrun as <- <- <-. by repeat split.
  - destruct (getApps s) as [|a1 rest1] eqn:Happs.
    + destruct (initializeApp s) as [[a1|e] s1]; [|done].
      simpl in Hrun. destruct (getFirestore a1 s1) as [[d1|e] s2]; [|done].
      injection Hrun as <- <- <-. simpl. by repeat split.
    + simpl in Hrun. destruct (getFirestore a1 s) as [[d1|e] s2]; [|done].
      injection Hrun as <- <- <-. simpl. repeat split; try done.
      by intros a rest _ _ [= <- _].
Qed.

Lemma getDb_is_a_singleton_witness :
  db_var _ _ (ModuleVars nat nat (Some 0%nat) (Some 100%nat)) = Some 100%nat
  ∧ (∀ s2, getDb _ _ _ (λ s : list nat, s) sdk_initializeApp sdk_getFirestore
             (ModuleVars nat nat (Some 0%nat) (Some 100%nat)) s2
           = (Ok 100%nat, ModuleVars nat nat (Some 0%nat) (Some 100%nat), s2))
  ∧ (∀ a, app_var _ _ (ModuleVars nat nat None None) = Some a →
          app_var _ _ (ModuleVars nat nat (Some 0%nat) (Some 100%nat)) = Some a)
  ∧ (∀ a rest, app_var _ _ (ModuleVars nat nat None None) = None →
               db_var _ _ (ModuleVars nat nat None None) = None →
               (λ s : list nat, s) [] = a :: rest →
               app_var _ _ (ModuleVars nat nat (Some 0%nat) (Some 100%nat)) = Some a).
Proof.
  apply (getDb_is_a_singleton (λ s : list nat, s) sdk_initializeApp
           sdk_getFirestore (ModuleVars nat nat None None) [] 100%nat
           (ModuleVars nat nat (Some 0%nat) (Some 100%nat)) [0%nat]).
  reflexivity.
Defined.

(** ** Cache keys: which requests share an entry *)

(** X18.  An event key is spliced into the cache key as it is, so the event
    resource and the event-matches resource can meet: the key of the event
    ["matches_" + k] is the key of the matches of event [k], and once the
    matches of [k] are cached the resolver serves them as the event record
    of ["matches_" + k], asking no source. *)
Theorem event_and_matches_share_a_key E ver k d w t :
  cacheKey ver (ReqEvent ("matches_" +:+ k)) = cacheKey ver (ReqEventMatches k)
  ∧ (healthy w → 0 < clock w → t <= clock w + 1000 * 60 → truthy d = true →
     getEvent E ver ("matches_" +:+ k)
       (with_clock t (written (cacheKey ver (ReqEventMatches k)) d 60 w))
     = (Ok d, with_clock t (written (cacheKey ver (ReqEventMatches k)) d 60 w))).
Proof.
  assert (Hkey : "event_" +:+ ("matches_" +:+ k) +:+ "_" +:+ ver
                 = cacheKey ver (ReqEventMatches k)).
  { unfold cacheKey. simpl key_stem. by rewrite append_assoc. }
  split.
  - unfold cacheKey at 1. simpl key_stem. by rewrite append_assoc.
  - intros Hw Hclock Ht Hd. unfold getEvent. rewrite Hkey.
    apply cachedQuery_hit; [|done].
    apply read_after_write; [done | lia | lia].
Qed.

Lemma event_and_matches_share_a_key_witness :
  getEvent env_down "v3" ("matches_" +:+ "USCAFFFAQ")
    (with_clock (clock world0)
       (written (cacheKey "v3" (ReqEventMatches "USCAFFFAQ"))
          (JArr [JObj (match_doc "q1" 1 2 3 4 10)]) 60 world0))
  = (Ok (JArr [JObj (match_doc "q1" 1 2 3 4 10)]),
     with_clock (clock world0)
       (written (cacheKey "v3" (ReqEventMatches "USCAFFFAQ"))
          (JArr [JObj (match_doc "q1" 1 2 3 4 10)]) 60 world0)).
Proof.
  apply (proj2 (event_and_matches_share_a_key env_down "v3" "USCAFFFAQ"
                  (JArr [JObj (match_doc "q1" 1 2 3 4 10)]) world0 (clock world0))).
  - reflexivity.
  - simpl; lia.
  - simpl; lia.
  - reflexivity.
Defined.

Lemma append_inj_r (a b s : string) : a +:+ s = b +:+ s → a = b.
Proof.
  revert b. induction a as [|x a IH]; intros [|y b] H.
  - done.
  - apply (f_equal String.length) in H.
    rewrite append_nil_l, append_cons in H.
    simpl in H. rewrite append_length in H. lia.
  - apply (f_equal String.length) in H.
    rewrite append_nil_l, append_cons in H.
    simpl in H. rewrite append_length in H. lia.
  - rewrite !append_cons in H. injection H as -> H. f_equal. by apply IH.
Qed.

(** X19.  Within each of the three event resources, different event keys have
    different cache keys. *)
Theorem event_keys_injective ver k1 k2 :
  (cacheKey ver (ReqEvent k1) = cacheKey ver (ReqEvent k2) → k1 = k2)
  ∧ (cacheKey ver (ReqEventMatches k1) = cacheKey ver (ReqEventMatches k2) → k1 = k2)
  ∧ (cacheKey ver (ReqEventRankings k1) = cacheKey ver (ReqEventRankings k2)
     → k1 = k2).
Proof.
  unfold cacheKey. simpl key_stem.
  repeat split; intros H; apply append_inj_r in H;
    by apply (inj (String.append _)) in H.
Qed.

Lemma event_keys_injective_witness : "USCAFFFAQ" = "USCAFFFAQ".
Proof.
  apply (proj1 (event_keys_injective "v3" "USCAFFFAQ" "USCAFFFAQ")).
  reflexivity.
Defined.

(** Decimal numerals: only sign and digits, and never empty. *)
Lemma pretty_N_char_numeric d : is_num_char (pretty_N_char d) = true.
Proof. unfold pretty_N_char. by repeat case_match. Qed.

Lemma pretty_N_go_numeric x s :
  numeric_string s = true → numeric_string (pretty_N_go x s) = true.
Proof.
  revert s. induction (N.lt_wf_0 x) as [x _ IH]; intros s Hs.
  destruct (decide (x = 0)%N) as [->|Hx]; [by rewrite pretty_N_go_0|].
  rewrite pretty_N_go_step by lia.
  apply IH; [apply N.div_lt; lia|].
  simpl. by rewrite pretty_N_char_numeric.
Qed.

Lemma pretty_N_go_length x s :
  (String.length s <= String.length (pretty_N_go x s))%nat.
Proof.
  revert s. induction (N.lt_wf_0 x) as [x _ IH]; intros s.
  destruct (decide (x = 0)%N) as [->|Hx]; [by rewrite pretty_N_go_0|].
  rewrite pretty_N_go_step by lia.
  etrans; [|apply IH, N.div_lt; lia]. simpl. lia.
Qed.

Lemma pretty_Z_numeric (n : Z) :
  numeric_string (pretty n) = true ∧ pretty n ≠ "".
Proof.
  assert (Hpos : ∀ p : positive,
            numeric_string (pretty p) = true ∧ pretty p ≠ "").
  { intros p. unfold pretty, pretty_positive, pretty, pretty_N.
    destruct (decide (N.pos p = 0)%N); [done|]. split.
    - by apply pretty_N_go_numeric.
    - rewrite pretty_N_go_step by lia. intros H.
      pose proof (pretty_N_go_length (N.pos p `div` 10)
                    (String (pretty_N_char (N.pos p `mod` 10)) "")) as Hl.
      rewrite H in Hl. simpl in Hl. lia. }
  destruct n as [|p|p]; [done | apply Hpos |].
  unfold pretty, pretty_Z. rewrite append_cons, append_nil_l.
  split; [|done]. simpl. apply Hpos.
Qed.

(** A numeral followed by anything starts with a sign or a digit. *)
Lemma pretty_head (n : Z) rest c rest' :
  pretty n +:+ rest = String c rest' → is_num_char c = true.
Proof.
  destruct (pretty_Z_numeric n) as [Hnum Hne].
  destruct (pretty n) as [|x s]; [done|].
  rewrite append_cons. intros [= -> _].
  simpl in Hnum. by apply andb_true_iff in Hnum as [? _].
Qed.

(** Two numerals followed by an underscore: the split is unique. *)
Lemma numeric_split a1 b1 a2 b2 :
  numeric_string a1 = true → numeric_string a2 = true →
  a1 +:+ "_" +:+ b1 = a2 +:+ "_" +:+ b2 → a1 = a2 ∧ b1 = b2.
Proof.
  revert a2. induction a1 as [|x a1 IH]; intros [|y a2] H1 H2 H.
  - rewrite !append_nil_l in H. by apply (inj (String.append _)) in H.
  - rewrite !append_cons, !append_nil_l in H. injection H as <- _.
    simpl in H2. done.
  - rewrite !append_cons, !append_nil_l in H. injection H as -> _.
    simpl in H1. done.
  - rewrite !append_cons in H. injection H as -> H.
    simpl in H1, H2.
    apply andb_true_iff in H1 as [_ H1]. apply andb_true_iff in H2 as [_ H2].
    destruct (IH a2 H1 H2 H) as [-> ->]. done.
Qed.

Lemma pretty_split (n1 n2 : Z) b1 b2 :
  pretty n1 +:+ "_" +:+ b1 = pretty n2 +:+ "_" +:+ b2 → n1 = n2 ∧ b1 = b2.
Proof.
  intros H. apply numeric_split in H as [Hn ->];
    [|apply pretty_Z_numeric..].
  split; [|done]. by apply (inj pretty).
Qed.

(** Strip equal leading characters from an equation between strings. *)
Ltac peel H :=
  repeat (rewrite ?append_assoc, ?append_cons, ?append_nil_l in H;
          first [discriminate H | injection H as H]).

(** A numeral cannot start where a letter stands. *)
Ltac head_clash H :=
  first [ apply pretty_head in H; discriminate H
        | symmetry in H; apply pretty_head in H; discriminate H ].

(** Two numerals, each followed by an underscore. *)
Ltac split_num H :=
  match type of H with
  | pretty ?a +:+ String _ ?x = pretty ?b +:+ String _ ?y =>
      apply (pretty_split a b x y) in H as [-> H]
  end.

(** X20.  Among the resources whose arguments are numbers (all teams, a team, a
    team's years, a team-year, the team-years and the events of a season,
    a team's season matches), two requests share a cache key only if they
    are the same request, a zero limit counting as no limit: no two
    distinct resources, teams, seasons or limits meet in the cache. *)
Theorem numeric_keys_injective ver r1 r2 :
  numeric_request r1 = true → numeric_request r2 = true →
  cacheKey ver r1 = cacheKey ver r2 →
  normalise_request r1 = normalise_request r2.
Proof.
  intros H1 H2 H.
  destruct r1 as [|n1|y1 [l1|]|n1 y1|n1|y1|k1|k1|n1 y1|k1]; try discriminate H1;
  destruct r2 as [|n2|y2 [l2|]|n2 y2|n2|y2|k2|k2|n2 y2|k2]; try discriminate H2;
  unfold cacheKey in H; simpl key_stem in H; simpl normalise_request;
  try destruct (l1 =? 0) eqn:Hl1; try destruct (l2 =? 0) eqn:Hl2;
  simpl negb in H; cbv iota in H; peel H; try head_clash H; try done;
  repeat split_num H; try head_clash H; done.
Qed.

Lemma numeric_keys_injective_witness :
  normalise_request (ReqYearTeamYears 2026 (Some 0))
  = normalise_request (ReqYearTeamYears 2026 None).
Proof.
  apply (numeric_keys_injective "v3" (ReqYearTeamYears 2026 (Some 0))
           (ReqYearTeamYears 2026 None)); reflexivity.
Defined.

(** ** Firestore queries and the resolver's footprint *)


(** A read touches only the two records of its key. *)
Lemma getWithExpiry_frame k w r w1 key :
  getWithExpiry k w = (r, w1) → key ≠ k → key ≠ expiry_key k →
  store w1 !! key = store w !! key.
Proof.
  intros Hrun Hk He. revert Hrun.
  unfold getWithExpiry, bind, idb_get, idb_del, store_op, getTime, ret.
  destruct w as [s t fs cs]; simpl.
  assert (D : delete k (delete (expiry_key k) s) !! key = s !! key).
  { by rewrite !lookup_delete_ne by done. }
  assert (D1 : delete (expiry_key k) s !! key = s !! key).
  { by rewrite lookup_delete_ne by done. }
  destruct fs as [|[] fs]; simpl.
  - destruct (truthy _); simpl; [|by intros [= _ <-]].
    destruct (num_gt _ _); simpl; by intros [= _ <-].
  - by intros [= _ <-].
  - destruct (truthy _); simpl; [|by intros [= _ <-]].
    destruct (num_gt _ _); simpl.
    + destruct fs as [|[] fs]; simpl; [by intros [= _ <-] | by intros [= _ <-] |].
      destruct fs as [|[] fs]; simpl; by intros [= _ <-].
    + destruct fs as [|[] fs]; simpl; by intros [= _ <-].
Qed.

(** X22.  The resolver's footprint.  Whatever the store's faults and whatever
    the sources answer, resolving [k] with a primary query that only
    consults Firestore changes no record other than [k] and its expiry
    record: one resource's resolution never disturbs another's entry. *)
Theorem resolver_touches_only_its_records E k q path e w key :
  pure_query q → key ≠ k → key ≠ expiry_key k →
  store (snd (cachedQuery E k q path e w)) !! key = store w !! key.
Proof.
  intros Hq Hk He. unfold cachedQuery, bind.
  destruct (getWithExpiry k w) as [[c|err] w1] eqn:Hread;
    pose proof (getWithExpiry_frame k w _ w1 key Hread Hk He) as Hf; [|done].
  destruct (truthy c); [done|]. rewrite <- Hf. clear Hread Hf.
  assert (Hset : ∀ v w2, store w2 = store w1 →
            store (snd (setWithExpiry k v e w2)) !! key = store w1 !! key).
  { intros v w2 <-. by apply setWithExpiry_frame. }
  assert (Hb : ∀ w2, store w2 = store w1 →
            store (snd (backend_run E k path e w2)) !! key = store w1 !! key).
  { intros w2 Hs. unfold backend_run.
    destruct (http_get E _) as [|res]; [by rewrite <- Hs|].
    destruct (ok res); [|by rewrite <- Hs].
    destruct (json res) as [d|err]; [|by rewrite <- Hs].
    by apply Hset. }
  destruct (isFirebaseConfigured E) eqn:Hc.
  - pose proof (Hq (with_call CallPrimary w1)) as Hpure.
    destruct (q (with_call CallPrimary w1)) as [[r|err] w2] eqn:Hrq;
      simpl in Hpure; subst w2.
    + destruct (nonempty_result r) eqn:Hr.
      * rewrite (sources_primary_ok E k q path e w1 r _ Hc Hrq Hr).
        by apply Hset.
      * rewrite (sources_primary_nothing E k q path e w1
                   (with_call CallPrimary w1)); [by apply Hb|].
        right. split; [done|]. right. by exists r.
    + rewrite (sources_primary_nothing E k q path e w1
                 (with_call CallPrimary w1)); [by apply Hb|].
      right. split; [done|]. left. by exists err.
  - rewrite (sources_primary_nothing E k q path e w1 w1); [by apply Hb|].
    by left.
Qed.

Lemma resolver_touches_only_its_records_witness :
  store (snd (cachedQuery env_primary "team_1234_v3" (fetchTeam env_primary 1234)
                "/v3/site/teams/1234" 3600
                (written "team_1_v3" (JNum 7) 60 world0))) !! "team_1_v3"
  = store (written "team_1_v3" (JNum 7) 60 world0) !! "team_1_v3".
Proof.
  apply (resolver_touches_only_its_records env_primary "team_1234_v3"
           (fetchTeam env_primary 1234) "/v3/site/teams/1234" 3600
           (written "team_1_v3" (JNum 7) 60 world0) "team_1_v3").
  - intros w. reflexivity.
  - discriminate.
  - discriminate.
Defined.

Lemma resolver_throws_only_from_cache_read_witness :
  getWithExpiry "team_1234_v3" (World ∅ 1700000000000 [true] [])
  = (Throw "idb-keyval", world0).
Proof.
  apply (proj1 (resolver_throws_only_from_cache_read env_down "team_1234_v3"
                  (fetchTeam env_down 1234) "/v3/site/teams/1234" 3600
                  (World ∅ 1700000000000 [true] []) "idb-keyval" world0)).
  reflexivity.
Defined.

